(** * RSMTool: true-score evaluation (PRMSE) and its report cell

    Three parts of the repository are embedded here.

    - The true-score metrics of the evaluation documentation
      ("Accuracy Metrics (True score)"): the variance of measurement errors,
      the averaged human score with its weight, the general estimates of
      [MSE(T|M)] and of the true-score variance, their simple forms for
      fully double-scored data, and PRMSE.  Scores are exact rationals
      ([Qc], canonical fractions, so that equality is plain [=]); rounding
      of machine floats is outside this model.  Division is total on [Qc]
      with [x / 0 = 0], which is why every quotient below is guarded in the
      statements that depend on it.

    - The code cell of [notebooks/comparison/true_score_evaluation.ipynb],
      run over a store of dataframe objects, so that copying and in-place
      replacement are told apart.

    - The requirement lines of the conda recipe, which the template
      computes from [install_requires] by three string replacements.

    The observed-score metrics of the same documentation that stay within
    the rationals (agreement, MSE, R2, QWK) are embedded beside the
    true-score ones. *)

From Stdlib Require Import QArith Qcanon ZArith Lia List Bool Permutation Ascii.
From Stdlib Require Qcabs.
From stdpp Require Import base numbers option list strings gmap.

Local Open Scope Qc_scope.

(** ** Numbers *)

(** Counts ([N], [N_1], [N_2]) enter the formulas as rationals. *)
Definition Qc_of_nat (n : nat) : Qc := Qc_of_Z (Z.of_nat n).

(** [sumQc] is the [Σ] of the formulas, over a list of terms. *)
Definition sumQc (l : list Qc) : Qc := foldr Qcplus 0 l.

Definition sq (x : Qc) : Qc := x * x.

(** ** Data model *)

(** One evaluated response: system score [M], human score [H] and, when the
    response was double-scored, the second human score [H2].  The fields
    carry the names of the estimator's data model. *)
Record ResponseRecord : Type := mkResponse {
  system_score : Qc;
  human_score_1 : Qc;
  human_score_2 : option Qc
}.

Definition ResponseSet : Type := list ResponseRecord.

Definition is_double_scored (r : ResponseRecord) : bool :=
  match human_score_2 r with Some _ => true | None => false end.

Definition is_single_scored (r : ResponseRecord) : bool :=
  negb (is_double_scored r).

(** [N]: number of responses; [N_2]: responses with both human scores;
    [N_1]: responses with only one human score. *)
Definition N (rs : ResponseSet) : nat := length rs.
Definition N2 (rs : ResponseSet) : nat := length (List.filter is_double_scored rs).
Definition N1 (rs : ResponseSet) : nat := length (List.filter is_single_scored rs).

(** ** The metrics of the documentation *)

(** Squared disagreement of the two raters; a single-scored response
    contributes no term to the sum of [sigma_e_sq]. *)
Definition rater_sq_diff (r : ResponseRecord) : Qc :=
  match human_score_2 r with
  | Some h2 => sq (human_score_1 r - h2)
  | None => 0
  end.

(** [sigma_e^2 = 1 / (2 * N_2) * Σ_{i=1..N_2} (H_i - H2_i)^2]. *)
Definition sigma_e_sq (rs : ResponseSet) : Qc :=
  1 / (2 * Qc_of_nat (N2 rs))
  * sumQc (map rater_sq_diff (List.filter is_double_scored rs)).

(** [H_hat_i = (H_i + H2_i) / 2] when two scores are available,
    [H_hat_i = H_i] when only one is. *)
Definition H_hat (r : ResponseRecord) : Qc :=
  match human_score_2 r with
  | Some h2 => (human_score_1 r + h2) / 2
  | None => human_score_1 r
  end.

(** [c_i = 1] or [2], the number of human scores observed for response [i]. *)
Definition c (r : ResponseRecord) : Qc :=
  if is_double_scored r then 2 else 1.

(** [Σ c_i (H_hat_i - M_i)^2]. *)
Definition weighted_sq_error (rs : ResponseSet) : Qc :=
  sumQc (map (fun r => c r * sq (H_hat r - system_score r)) rs).

(** [Σ c_i (H_hat_i - hbar)^2], the weighted squared deviations around a
    centre [hbar]. *)
Definition weighted_sq_dev (hbar : Qc) (rs : ResponseSet) : Qc :=
  sumQc (map (fun r => c r * sq (H_hat r - hbar)) rs).

(** General estimate:
    [MSE(T|M) = (Σ c_i (H_hat_i - M_i)^2 - N sigma_e^2) / (N_1 + 2 N_2)]. *)
Definition mse_true_general (rs : ResponseSet) : Qc :=
  (weighted_sq_error rs - Qc_of_nat (N rs) * sigma_e_sq rs)
  / (Qc_of_nat (N1 rs) + 2 * Qc_of_nat (N2 rs)).

(** Denominator of the general true-score variance:
    [(N - 1) + N_2 (N_1 + 2 N_2 - 2) / (N_1 + 2 N_2)]. *)
Definition true_var_denominator (rs : ResponseSet) : Qc :=
  (Qc_of_nat (N rs) - 1)
  + Qc_of_nat (N2 rs) * (Qc_of_nat (N1 rs) + 2 * Qc_of_nat (N2 rs) - 2)
    / (Qc_of_nat (N1 rs) + 2 * Qc_of_nat (N2 rs)).

(** General estimate:
    [sigma_T^2 = (Σ c_i (H_hat_i - hbar)^2 - (N - 1) sigma_e^2)
                 / ((N - 1) + N_2 (N_1 + 2 N_2 - 2) / (N_1 + 2 N_2))],
    with the mean [hbar] of [H_hat] left as an argument: the documentation
    writes it as a bar over [H_hat] and does not spell it out. *)
Definition true_score_variance_general (hbar : Qc) (rs : ResponseSet) : Qc :=
  (weighted_sq_dev hbar rs - (Qc_of_nat (N rs) - 1) * sigma_e_sq rs)
  / true_var_denominator rs.

(** [PRMSE = 1 - MSE(T|M) / sigma_T^2]. *)
Definition PRMSE (mse var : Qc) : Qc := 1 - mse / var.

(** *** Observed-score counterparts, computed on [H_hat] *)

(** Mean of [H_hat], by the convention of the documentation for a bar:
    the sum divided by [N]. *)
Definition H_hat_mean (rs : ResponseSet) : Qc :=
  sumQc (map H_hat rs) / Qc_of_nat (N rs).

(** [MSE(H_hat|M) = 1/N * Σ (H_hat_i - M_i)^2]. *)
Definition mse_H_hat (rs : ResponseSet) : Qc :=
  1 / Qc_of_nat (N rs) * sumQc (map (fun r => sq (H_hat r - system_score r)) rs).

(** Sum of squared deviations of [H_hat] from its mean. *)
Definition H_hat_sq_dev (rs : ResponseSet) : Qc :=
  sumQc (map (fun r => sq (H_hat r - H_hat_mean rs)) rs).

(** Variance of [H_hat] dividing by [N - 1], the convention of the
    documentation for [sigma_H]. *)
Definition var_H_hat_sample (rs : ResponseSet) : Qc :=
  H_hat_sq_dev rs / (Qc_of_nat (N rs) - 1).

(** Variance of [H_hat] dividing by [N]. *)
Definition var_H_hat_population (rs : ResponseSet) : Qc :=
  H_hat_sq_dev rs / Qc_of_nat (N rs).

(** Simple case, all responses double-scored:
    [MSE(T|M) = MSE(H_hat|M) - 1/2 sigma_e^2]. *)
Definition mse_true_simple (rs : ResponseSet) : Qc :=
  mse_H_hat rs - 1 / 2 * sigma_e_sq rs.

(** Simple case, all responses double-scored:
    [sigma_T^2 = sigma_{H_hat}^2 - 1/2 sigma_e^2], for a given variance of
    [H_hat]. *)
Definition true_score_variance_simple (var_H_hat : Qc) (rs : ResponseSet) : Qc :=
  var_H_hat - 1 / 2 * sigma_e_sq rs.

(** ** The estimator *)

(** Modelled from the spec: the weighted sum of step 3 of the estimator,
    [Σ c_i * H_hat_i]; the code of [compute_prmse] is not among the
    sources. *)
Definition weighted_H_hat_sum (rs : ResponseSet) : Qc :=
  sumQc (map (fun r => c r * H_hat r) rs).

(** Modelled from the spec: step 3 of the estimator as its formula gives it,
    [H_hat_bar = (Σ c_i * H_hat_i) / N]; the code of [compute_prmse] is not
    among the sources. *)
Definition H_hat_bar (rs : ResponseSet) : Qc :=
  weighted_H_hat_sum rs / Qc_of_nat (N rs).

(** Total weight [Σ c_i]. *)
Definition sum_c (rs : ResponseSet) : Qc := sumQc (map c rs).

(** Modelled from the spec: step 3 of the estimator as the sentence after
    its formula gives it, the mean of [H_hat] weighted by score count, so
    that double-scored responses count twice and the weights add up to
    [N1 + 2*N2]. *)
Definition H_hat_count_weighted_mean (rs : ResponseSet) : Qc :=
  weighted_H_hat_sum rs / sum_c rs.

(** Modelled from the spec: the error of the estimator's contract. *)
Inductive EstimatorError : Type := InsufficientDataError.

(** Modelled from the spec: the output value of the estimator.  The field
    [prmse_true] is [None] for the explicit undefined marker. *)
Record PrmseResult : Type := mkPrmseResult {
  measurement_error_variance : Qc;
  true_score_variance : Qc;
  mse_true : Qc;
  prmse_true : option Qc
}.

(** Modelled from the spec: the guard of the contract, [N2 = 0] or
    [N < 2]. *)
Definition insufficient_data (rs : ResponseSet) : bool :=
  (N2 rs =? 0)%nat || (N rs <? 2)%nat.

(** Modelled from the spec: the true-score variance of step 4, around the
    mean of [H_hat]: the bar of the documentation is the sum divided by [N],
    and the scenario of the spec has the mean [3.75] of its four [H_hat].
    The quotient of the formula of step 3 is not that mean (it is twice the
    mean on double-scored data) and is not used here. *)
Definition true_score_variance_est (rs : ResponseSet) : Qc :=
  true_score_variance_general (H_hat_mean rs) rs.

(** Modelled from the spec: step 5, with the marker when the true-score
    variance is zero. *)
Definition prmse_or_undefined (mse var : Qc) : option Qc :=
  if decide (var = 0) then None else Some (PRMSE mse var).

(** Modelled from the spec: [rsmtool.prmse_utils.compute_prmse], which the
    documentation names as the implementation of PRMSE and whose code is not
    among the sources.  The model follows the contract and the five steps of
    the estimator: it fails with [InsufficientDataError] when [N2 = 0] or
    [N < 2]; otherwise it computes [sigma_e_sq], the general [MSE(T|M)] and
    the general true-score variance of step 4 around the mean of [H_hat],
    and [prmse_true] of step 5.  Of the two policies allowed when the true-score
    variance is zero, the model takes the marker: [prmse_true] is [None]
    and the other fields are still reported. *)
Definition compute_prmse (rs : ResponseSet) : EstimatorError + PrmseResult :=
  if insufficient_data rs then inl InsufficientDataError
  else
    let mse := mse_true_general rs in
    let var := true_score_variance_est rs in
    inr {| measurement_error_variance := sigma_e_sq rs;
           true_score_variance := var;
           mse_true := mse;
           prmse_true := prmse_or_undefined mse var |}.

(** ** Worked inputs *)

(** Shorthand for an integer score. *)
Definition sc (z : Z) : Qc := Qc_of_Z z.

(** A double-scored record [(H1, H2, M)] and a single-scored one [(H1, M)]. *)
Definition double (h1 h2 m : Z) : ResponseRecord :=
  mkResponse (sc m) (sc h1) (Some (sc h2)).
Definition single (h1 m : Z) : ResponseRecord :=
  mkResponse (sc m) (sc h1) None.

(** The four double-scored responses of the concrete scenario:
    [(H1, H2, M) = (2,2,2), (3,4,3), (4,4,5), (5,6,4)]. *)
Definition scenario4 : ResponseSet :=
  [double 2 2 2; double 3 4 3; double 4 4 5; double 5 6 4].

(** Evaluates a closed equation between rationals. *)
Ltac qc_eval := apply Qc_is_canon; vm_compute; reflexivity.

(** Closes the non-zero side conditions left by [field]. *)
Ltac qc_side :=
  repeat split;
  first [ assumption
        | match goal with H : _ <> _ |- _ => exact H end
        | let E := fresh in
          intros E; apply (f_equal this) in E; vm_compute in E; discriminate E ].

(** Refutes a closed equation between rationals. *)
Ltac qc_neq := let E := fresh in intros E; apply (f_equal this) in E; vm_compute in E; discriminate E.

(** Two double-scored responses on which the raters agree and the system
    is exact: [(H1, H2, M) = (1,1,1), (3,3,3)]. *)
Definition pair2 : ResponseSet := [double 1 1 1; double 3 3 3].

(** Every double-scored record has [H_i = H2_i]. *)
Definition raters_agree (rs : ResponseSet) : Prop :=
  Forall (fun r => match human_score_2 r with
                   | Some h2 => human_score_1 r = h2
                   | None => True
                   end) rs.



(** The raters disagree widely and the system hits their average:
    [MSE(T|M)] is negative. *)
Definition disagreeing2 : ResponseSet := [double 1 5 3; double 2 6 4].


(** * The report cell [true_score_evaluation.ipynb] *)

(** ** Dataframes *)

(** A cell of a dataframe: a number, the missing value [np.nan], or text
    (the placeholder written by [replace]). *)
Inductive cell : Type :=
  | Num (x : Qc)
  | NaN
  | Text (s : string).

(** A dataframe: row labels and labelled columns, kept in order; labels may
    repeat. *)
Record DataFrame : Type := mkDataFrame {
  df_index : list string;
  df_columns : list (string * list cell)
}.

(** [df.empty]: some axis has length zero. *)
Definition df_empty (df : DataFrame) : bool :=
  (length (df_columns df) =? 0)%nat || (length (df_index df) =? 0)%nat.

Definition columns_labelled (name : string) (df : DataFrame)
  : list (string * list cell) :=
  List.filter (fun col => String.eqb (fst col) name) (df_columns df).

(** [df[names]] with a list of labels: the columns carrying each label, in
    the order asked; [None] stands for the [KeyError] raised when a label is
    missing. *)
Fixpoint select_columns (names : list string) (df : DataFrame)
  : option (list (string * list cell)) :=
  match names with
  | [] => Some []
  | name :: names' =>
      match columns_labelled name df with
      | [] => None
      | cols =>
          match select_columns names' df with
          | Some rest => Some (cols ++ rest)
          | None => None
          end
      end
  end.

(** [replace({np.nan: '-'})] on one cell and on a whole dataframe. *)
Definition replace_nan_cell (v : cell) : cell :=
  match v with
  | NaN => Text "-"
  | _ => v
  end.

Definition replace_nan (df : DataFrame) : DataFrame :=
  mkDataFrame (df_index df)
    (map (fun col => (fst col, map replace_nan_cell (snd col))) (df_columns df)).

(** ** The kernel: a store of dataframe objects *)

(** Dataframes are objects: a variable holds a reference, and an in-place
    method changes the object every holder of the reference sees. *)
Definition ref : Type := positive.

Inductive output : Type :=
  | Markdown (text : string)
  | HTML (html : string).

Record Kernel : Type := mkKernel {
  objects : gmap ref DataFrame;
  pd_display_width : Z;
  displayed : list output
}.

Inductive exn : Type :=
  | KeyError (key : string)
  | InvalidReference (l : ref).

(** Computations of the cell: they read and change the kernel and may
    raise; the kernel reached when an exception is raised is kept. *)
Definition Nb (A : Type) : Type := Kernel -> (exn + A) * Kernel.

Definition nb_ret {A} (a : A) : Nb A := fun k => (inr a, k).

Definition nb_raise {A} (e : exn) : Nb A := fun k => (inl e, k).

Definition nb_bind {A B} (m : Nb A) (f : A -> Nb B) : Nb B :=
  fun k =>
    match m k with
    | (inr a, k') => f a k'
    | (inl e, k') => (inl e, k')
    end.

Global Instance nb_mret : MRet Nb := @nb_ret.
Global Instance nb_mbind : MBind Nb := fun A B f m => nb_bind m f.

(** Reading the object behind a reference. *)
Definition deref (l : ref) : Nb DataFrame :=
  fun k =>
    match objects k !! l with
    | Some df => (inr df, k)
    | None => (inl (InvalidReference l), k)
    end.

(** A new object, at a reference not in use. *)
Definition alloc (df : DataFrame) : Nb ref :=
  fun k =>
    let l := fresh (dom (objects k)) in
    (inr l, mkKernel (<[l := df]> (objects k)) (pd_display_width k) (displayed k)).

(** Overwriting the object behind a reference. *)
Definition assign (l : ref) (df : DataFrame) : Nb unit :=
  fun k =>
    (inr tt, mkKernel (<[l := df]> (objects k)) (pd_display_width k) (displayed k)).

(** [d[key]] on the dictionary of dataframes. *)
Definition dict_getitem (d : gmap string ref) (key : string) : Nb ref :=
  match d !! key with
  | Some l => nb_ret l
  | None => nb_raise (KeyError key)
  end.

(** [df[names]]: a new dataframe object with the selected columns. *)
Definition getitem (l : ref) (names : list string) : Nb ref :=
  df ← deref l;
  match select_columns names df with
  | Some cols => alloc (mkDataFrame (df_index df) cols)
  | None => nb_raise (KeyError "columns")
  end.

(** [df.copy()]: a new object with the same contents. *)
Definition copy (l : ref) : Nb ref :=
  df ← deref l; alloc df.

(** [df.replace({np.nan: '-'}, inplace=True)]: the object itself changes. *)
Definition replace_inplace (l : ref) : Nb unit :=
  df ← deref l; assign l (replace_nan df).

Definition display (o : output) : Nb unit :=
  fun k => (inr tt, mkKernel (objects k) (pd_display_width k) (displayed k ++ [o])).

(** [pd.options.display.width = w]. *)
Definition set_display_width (w : Z) : Nb unit :=
  fun k => (inr tt, mkKernel (objects k) w (displayed k)).

(** ** The cell *)

Definition variance_columns : list string :=
  ["N"; "N_single"; "N_double"; "h1_var_single"; "h1_var_double";
   "h2_var_double"; "true_var"]%string.

Definition prmse_columns : list string :=
  ["N"; "N_single"; "N_double"; "sys_var_single"; "sys_var_double";
   "mse_true"; "prmse_true"]%string.

Definition newline : string := String (Ascii.ascii_of_nat 10) EmptyString.
Definition dquote : string := String (Ascii.ascii_of_nat 34) EmptyString.

(** ['\n'.join(strs)]. *)
Definition join_lines (strs : list string) : string := String.concat newline strs.

Definition variance_markdown : list string :=
  [ ("The tables in this section show how well system scores can "
     ++ "predict *true* scores. According to Test theory, a *true* score "
     ++ "is a score that would have been obtained if there were no errors "
     ++ "in measurement. While true scores cannot be observed, the variance "
     ++ "of true scores and the prediction error can be estimated using observed "
     ++ "human scores when multiple human ratings are available for a subset of "
     ++ "responses. In this notebook these are estimated using human scores for "
     ++ "responses in the evaluation set.");
    "#### Variance of human scores";
    ("The table below shows variance of both sets of human scores "
     ++ "for the whole evaluation set and for the subset of responses "
     ++ "that were double-scored. Large differences in variance between "
     ++ "the two human scores require further investigation. The last column "
     ++ "shows estimated true score variance. ") ]%string.

Definition prmse_markdown : list string :=
  [ "#### Proportional reduction in mean squared error (PRMSE)";
    ("The table shows the variance of system scores for single-scored "
     ++ "and double-scored responses, and mean squared error (MSE) and "
     ++ "proportional reduction in mean squared error (PRMSE) for "
     ++ "predicting a true score with system score.") ]%string.

Definition span_open : string :=
  ("<span style=" ++ dquote ++ "font-size:95%" ++ dquote ++ ">")%string.
Definition span_close : string := "</span>"%string.

Section Cell.
(** Defined outside the cell: the text shown when there is nothing to
    report, and the rendering [to_html(classes=['sortable'], escape=False,
    float_format=float_format_func)] of a dataframe. *)
Variable no_info_str : string.
Variable to_html : DataFrame -> string.

(** One table of the report: select the columns of the evaluation
    dataframe, copy, replace the missing values in the copy, show it. *)
Definition show_table (out_dfs : gmap string ref) (columns : list string)
  : Nb unit :=
  evals ← dict_getitem out_dfs "true_score_evaluations";
  selected ← getitem evals columns;
  table ← copy selected;
  replace_inplace table;;
  df ← deref table;
  display (HTML (span_open ++ to_html df ++ span_close)).

Definition true_score_evaluation_cell (out_dfs : gmap string ref) : Nb unit :=
  evals ← dict_getitem out_dfs "true_score_evaluations";
  df ← deref evals;
  if negb (df_empty df) then
    display (Markdown (join_lines variance_markdown));;
    set_display_width 10;;
    show_table out_dfs variance_columns;;
    display (Markdown (join_lines prmse_markdown));;
    set_display_width 10;;
    show_table out_dfs prmse_columns
  else
    display (Markdown no_info_str).
End Cell.

(** A kernel for experiments: the evaluation dataframe of one system, with
    a missing [h2_var_double], stored at reference [1]. *)
Definition evals_df : DataFrame :=
  mkDataFrame ["sys"%string]
    [ ("N"%string, [Num (sc 4)]); ("N_single"%string, [Num (sc 1)]);
      ("N_double"%string, [Num (sc 3)]);
      ("h1_var_single"%string, [NaN]); ("h1_var_double"%string, [Num (sc 2)]);
      ("h2_var_double"%string, [NaN]); ("true_var"%string, [Num (sc 1)]);
      ("sys_var_single"%string, [NaN]); ("sys_var_double"%string, [Num (sc 1)]);
      ("mse_true"%string, [Num (sc 1)]); ("prmse_true"%string, [NaN]) ].

Definition kernel0 : Kernel :=
  mkKernel {[ 1%positive := evals_df ]} 80 [].

Definition out_dfs0 : gmap string ref :=
  {[ "true_score_evaluations"%string := 1%positive ]}.

(** The sample dataframe without one of its columns. *)
Definition drop_column (name : string) (df : DataFrame) : DataFrame :=
  mkDataFrame (df_index df)
    (List.filter (fun col => negb (String.eqb (fst col) name)) (df_columns df)).

Definition place (l : ref) (df : DataFrame) : Kernel :=
  mkKernel {[ l := df ]} 80 [].

(** ** Frame conditions for computations of the cell *)

(** [keeps P k k']: going from kernel [k] to [k'], every object behind a
    reference of [P] is still there and is the same dataframe. *)
Definition keeps (P : gset ref) (k k' : Kernel) : Prop :=
  P ⊆ dom (objects k') /\ forall l, l ∈ P -> objects k' !! l = objects k !! l.

(** [respects P m Q]: from any kernel holding the objects of [P], the
    computation [m] keeps them, whether it returns or raises, and a returned
    value satisfies [Q]. *)
Definition respects {A} (P : gset ref) (m : Nb A) (Q : A -> Prop) : Prop :=
  forall k, P ⊆ dom (objects k) ->
    keeps P k (m k).2 /\ forall a, (m k).1 = inr a -> Q a.

(** [appends k k']: from [k] to [k'] the outputs shown so far are all still
    there, in order, with new ones after them, and the display width is the
    old one or [10]. *)
Definition appends (k k' : Kernel) : Prop :=
  (exists shown, displayed k' = displayed k ++ shown)
  /\ (pd_display_width k' = pd_display_width k \/ pd_display_width k' = 10%Z).

(** A computation that only ever appends, from any kernel. *)
Definition appending {A} (m : Nb A) : Prop := forall k, appends k (m k).2.

(** No cell of the dataframe is missing. *)
Definition no_nan (df : DataFrame) : Prop :=
  Forall (fun col => Forall (fun v => v <> NaN) (snd col)) (df_columns df).

(** * The conda recipe *)

(** The requirement lines of the recipe are computed by the template from
    the [install_requires] of the package:
    [req.replace(">", " >").replace("<", " <").replace("==", " ")]. *)

(** [str_replace_from skip old new s]: the scan of [s.replace(old, new)]
    from left to right, for a non-empty [old]; [skip] counts the characters
    of a match still to be passed over.  Matches do not overlap. *)
Fixpoint str_replace_from (skip : nat) (old new s : string) : string :=
  match s with
  | EmptyString => EmptyString
  | String ch rest =>
      match skip with
      | S skip' => str_replace_from skip' old new rest
      | O =>
          if String.prefix old s
          then (new ++ str_replace_from (String.length old - 1) old new rest)%string
          else String ch (str_replace_from 0 old new rest)
      end
  end.

(** With an empty [old], [new] is put before every character and at the
    end. *)
Fixpoint str_intersperse (new s : string) : string :=
  match s with
  | EmptyString => new
  | String ch rest => (new ++ String ch (str_intersperse new rest))%string
  end.

(** [s.replace(old, new)]. *)
Definition str_replace (old new s : string) : string :=
  match old with
  | EmptyString => str_intersperse new s
  | String _ _ => str_replace_from 0 old new s
  end.

(** One requirement, as the template writes it. *)
Definition conda_requirement (req : string) : string :=
  str_replace "==" " " (str_replace "<" " <" (str_replace ">" " >" req)).

(** The requirement lines of the [build] and of the [run] section: the
    Python line, then one line for each of [install_requires]. *)
Definition recipe_requirements (install_requires : list string) : list string :=
  "python >=3.6"%string :: map conda_requirement install_requires.

(** [occurs pat s]: [pat] is a substring of [s]. *)
Fixpoint occurs (pat s : string) : bool :=
  String.prefix pat s
  || match s with
     | EmptyString => false
     | String _ rest => occurs pat rest
     end.

(** A string without any of the characters [<], [>] and [=]. *)
Definition plain (s : string) : Prop :=
  occurs ">" s = false /\ occurs "<" s = false /\ occurs "=" s = false.

(** * Observed-score metrics of the documentation *)

(** These are the formulas of "Accuracy Metrics (Observed score)" that stay
    within the rationals; the standard deviations, Pearson's [r] and the
    standardized mean differences take square roots and are not embedded.
    They read [M] and [H] of a response and ignore [H2]. *)

(** [M_bar = Σ M_i / N] and [H_bar = Σ H_i / N]. *)
Definition M_bar (rs : ResponseSet) : Qc :=
  sumQc (map system_score rs) / Qc_of_nat (N rs).
Definition H_bar (rs : ResponseSet) : Qc :=
  sumQc (map human_score_1 rs) / Qc_of_nat (N rs).

(** [sigma_H^2 = Σ (H_i - H_bar)^2 / (N - 1)], the square of the standard
    deviation of the conventions. *)
Definition sigma_H_sq (rs : ResponseSet) : Qc :=
  sumQc (map (fun r => sq (human_score_1 r - H_bar rs)) rs)
  / (Qc_of_nat (N rs) - 1).

(** Percent exact agreement: [A = Σ w_i / N * 100] with [w_i = 1] if
    [M_i = H_i] and [w_i = 0] otherwise. *)
Definition w_exact (r : ResponseRecord) : Qc :=
  if decide (system_score r = human_score_1 r) then 1 else 0.

Definition exact_agreement (rs : ResponseSet) : Qc :=
  sumQc (map (fun r => w_exact r / Qc_of_nat (N rs)) rs) * Qc_of_Z 100.

(** Percent exact + adjacent agreement: the same with [w_i = 1] if
    [|M_i - H_i| <= 1]. *)
Definition w_adjacent (r : ResponseRecord) : Qc :=
  if decide (Qcabs.Qcabs (system_score r - human_score_1 r) ≤ 1) then 1 else 0.

Definition adjacent_agreement (rs : ResponseSet) : Qc :=
  sumQc (map (fun r => w_adjacent r / Qc_of_nat (N rs)) rs) * Qc_of_Z 100.

(** [MSE(H|M) = 1/N * Σ (H_i - M_i)^2]. *)
Definition mse_observed (rs : ResponseSet) : Qc :=
  1 / Qc_of_nat (N rs)
  * sumQc (map (fun r => sq (human_score_1 r - system_score r)) rs).

(** [R2 = 1 - MSE(H|M) / sigma_H^2]. *)
Definition R2 (rs : ResponseSet) : Qc :=
  1 - mse_observed rs / sigma_H_sq rs.

(** Variances and covariance dividing by [N], as the quadratic weighted
    kappa takes them. *)
Definition var_H_population (rs : ResponseSet) : Qc :=
  sumQc (map (fun r => sq (human_score_1 r - H_bar rs)) rs) / Qc_of_nat (N rs).
Definition var_M_population (rs : ResponseSet) : Qc :=
  sumQc (map (fun r => sq (system_score r - M_bar rs)) rs) / Qc_of_nat (N rs).
Definition cov_MH_population (rs : ResponseSet) : Qc :=
  sumQc (map (fun r => (system_score r - M_bar rs) * (human_score_1 r - H_bar rs)) rs)
  / Qc_of_nat (N rs).

(** Denominator of QWK: [Var(H) + Var(M) + (M_bar - H_bar)^2]. *)
Definition QWK_denominator (rs : ResponseSet) : Qc :=
  var_H_population rs + var_M_population rs + sq (M_bar rs - H_bar rs).

(** [QWK = 2 * Cov(M,H) / (Var(H) + Var(M) + (M_bar - H_bar)^2)]. *)
Definition QWK (rs : ResponseSet) : Qc :=
  2 * cov_MH_population rs / QWK_denominator rs.

(** ** Devices for stating properties of the metrics *)

(** The same responses with system and human scores exchanged. *)
Definition swap_scores (rs : ResponseSet) : ResponseSet :=
  map (fun r => mkResponse (human_score_1 r) (system_score r) (human_score_2 r)) rs.

(** Every score [x] of every response replaced by [k * x + a]: a change of
    unit and origin of the score scale. *)
Definition rescale_record (k a : Qc) (r : ResponseRecord) : ResponseRecord :=
  mkResponse (k * system_score r + a) (k * human_score_1 r + a)
    (option_map (fun h2 => k * h2 + a) (human_score_2 r)).

Definition rescale (k a : Qc) (rs : ResponseSet) : ResponseSet :=
  map (rescale_record k a) rs.

(** The system reproduces the averaged human score of every response. *)
Definition predicts_H_hat (rs : ResponseSet) : Prop :=
  Forall (fun r => system_score r = H_hat r) rs.

(** The system reproduces the first human score of every response. *)
Definition predicts_H (rs : ResponseSet) : Prop :=
  Forall (fun r => system_score r = human_score_1 r) rs.

(** A mixed response set: three double-scored and two single-scored. *)
Definition mixed5 : ResponseSet :=
  [double 2 3 2; single 4 3; double 1 1 2; single 3 3; double 5 4 4].

(** * Properties of the metrics *)

(** ** Sums *)

Lemma Qc_of_nat_S (n : nat) : Qc_of_nat (S n) = 1 + Qc_of_nat n.
Proof.
  unfold Qc_of_nat. rewrite Nat2Z.inj_succ, <- Z.add_1_l.
  by rewrite Z2Qc_inj_add, Z2Qc_inj_1.
Qed.

Lemma Qc_of_nat_0 : Qc_of_nat 0 = 0.
Proof. apply Z2Qc_inj_0. Qed.

Lemma Qc_of_nat_pos (n : nat) : (1 <= n)%nat -> 0 < Qc_of_nat n.
Proof.
  intros Hn. unfold Qc_of_nat. rewrite <- Z2Qc_inj_0.
  apply (proj1 (Z2Qc_inj_lt 0 (Z.of_nat n))). lia.
Qed.

Lemma Qc_of_nat_neq_0 (n : nat) : (1 <= n)%nat -> Qc_of_nat n <> 0.
Proof.
  intros Hn E. apply Qc_of_nat_pos in Hn. rewrite E in Hn.
  by apply (irreflexivity Qclt 0).
Qed.

Lemma Qc_of_nat_pred_neq_0 (n : nat) : (2 <= n)%nat -> Qc_of_nat n - 1 <> 0.
Proof.
  intros Hn E. destruct n as [|n]; [lia|].
  rewrite Qc_of_nat_S in E.
  apply (Qc_of_nat_neq_0 n); [lia|].
  rewrite <- E. ring.
Qed.

Lemma Qc_two_neq_0 : (2 : Qc) <> 0.
Proof. qc_neq. Qed.

Lemma sumQc_scale {A} (k : Qc) (f : A -> Qc) (l : list A) :
  sumQc (map (fun x => k * f x) l) = k * sumQc (map f l).
Proof.
  induction l as [|x l IH]; simpl; [ring|]. rewrite IH. ring.
Qed.

Lemma sumQc_ext {A} (f g : A -> Qc) (l : list A) :
  Forall (fun x => f x = g x) l -> sumQc (map f l) = sumQc (map g l).
Proof.
  induction 1 as [|x l Hx _ IH]; simpl; [done|]. by rewrite Hx, IH.
Qed.

Lemma sumQc_const {A} (k : Qc) (l : list A) :
  sumQc (map (fun _ => k) l) = Qc_of_nat (length l) * k.
Proof.
  induction l as [|x l IH]; simpl.
  - rewrite Qc_of_nat_0. ring.
  - rewrite IH, Qc_of_nat_S. ring.
Qed.

Lemma sumQc_nonneg (l : list Qc) : Forall (fun x => 0 ≤ x) l -> 0 ≤ sumQc l.
Proof.
  induction 1 as [|x l Hx _ IH]; simpl; [done|].
  by apply Qcplus_nonneg_nonneg.
Qed.

Lemma sumQc_all_zero (l : list Qc) : Forall (fun x => x = 0) l -> sumQc l = 0.
Proof.
  induction 1 as [|x l Hx _ IH]; simpl; [done|]. rewrite Hx, IH. ring.
Qed.

Lemma sq_nonneg (x : Qc) : 0 ≤ sq x.
Proof.
  unfold sq. destruct (Qclt_le_dec x 0) as [Hneg|Hpos].
  - replace (x * x) with ((- x) * (- x)) by ring.
    assert (0 ≤ - x).
    { replace 0 with (- 0) by ring. apply Qcopp_le_compat. by apply Qclt_le_weak. }
    by apply Qcmult_nonneg_nonneg.
  - by apply Qcmult_nonneg_nonneg.
Qed.

(** ** Counting single- and double-scored responses *)

(** The two subsets partition the response set: [N1 + N2 = N]. *)
Lemma N1_plus_N2 (rs : ResponseSet) : (N1 rs + N2 rs = N rs)%nat.
Proof.
  unfold N1, N2, N, is_single_scored.
  induction rs as [|r rs IH]; simpl; [done|].
  destruct (is_double_scored r); simpl; lia.
Qed.

Lemma N1_0_all_double (rs : ResponseSet) :
  N1 rs = 0%nat -> Forall (fun r => is_double_scored r = true) rs.
Proof.
  unfold N1, is_single_scored.
  induction rs as [|r rs IH]; simpl; [by constructor|].
  destruct (is_double_scored r) eqn:Hr; simpl; [|discriminate].
  intros H0. constructor; auto.
Qed.

Lemma filter_all_true {A} (p : A -> bool) (l : list A) :
  Forall (fun x => p x = true) l -> List.filter p l = l.
Proof.
  induction 1 as [|x l Hx _ IH]; simpl; [done|]. by rewrite Hx, IH.
Qed.

Lemma N1_0_N2 (rs : ResponseSet) : N1 rs = 0%nat -> N2 rs = N rs.
Proof. intros H0. pose proof (N1_plus_N2 rs). lia. Qed.

Lemma c_double (r : ResponseRecord) : is_double_scored r = true -> c r = 2.
Proof. unfold c. by intros ->. Qed.

(** The weights add up to [N1 + 2 * N2]. *)
Lemma sum_c_counts (rs : ResponseSet) :
  sum_c rs = Qc_of_nat (N1 rs) + 2 * Qc_of_nat (N2 rs).
Proof.
  unfold sum_c, N1, N2, c, is_single_scored.
  induction rs as [|r rs IH]; simpl.
  - rewrite Qc_of_nat_0. ring.
  - destruct (is_double_scored r); simpl; rewrite IH, Qc_of_nat_S; ring.
Qed.

Lemma Qc_of_nat_add (n m : nat) : Qc_of_nat (n + m) = Qc_of_nat n + Qc_of_nat m.
Proof. unfold Qc_of_nat. by rewrite Nat2Z.inj_add, Z2Qc_inj_add. Qed.

Lemma sum_c_pos (rs : ResponseSet) : (1 <= N2 rs)%nat -> 0 < sum_c rs.
Proof.
  intros H2. rewrite sum_c_counts.
  apply Qcplus_nonneg_pos.
  - destruct (N1 rs) as [|k]; [by rewrite Qc_of_nat_0|].
    apply Qclt_le_weak, Qc_of_nat_pos. lia.
  - apply Qcmult_pos_pos; [done|]. by apply Qc_of_nat_pos.
Qed.

(** ** Fully double-scored response sets *)

Section AllDoubleScored.
Variable rs : ResponseSet.
Hypothesis all_double : N1 rs = 0%nat.

Let every_double : Forall (fun r => is_double_scored r = true) rs :=
  N1_0_all_double rs all_double.

Lemma weighted_sq_error_all_double :
  weighted_sq_error rs
  = 2 * sumQc (map (fun r => sq (H_hat r - system_score r)) rs).
Proof.
  unfold weighted_sq_error. rewrite <- sumQc_scale. apply sumQc_ext.
  eapply Forall_impl; [exact every_double|].
  intros r Hr. simpl. by rewrite (c_double r Hr).
Qed.

Lemma weighted_sq_dev_all_double (hbar : Qc) :
  weighted_sq_dev hbar rs = 2 * sumQc (map (fun r => sq (H_hat r - hbar)) rs).
Proof.
  unfold weighted_sq_dev. rewrite <- sumQc_scale. apply sumQc_ext.
  eapply Forall_impl; [exact every_double|].
  intros r Hr. simpl. by rewrite (c_double r Hr).
Qed.

Lemma weighted_H_hat_sum_all_double :
  weighted_H_hat_sum rs = 2 * sumQc (map H_hat rs).
Proof.
  unfold weighted_H_hat_sum. rewrite <- sumQc_scale. apply sumQc_ext.
  eapply Forall_impl; [exact every_double|].
  intros r Hr. simpl. by rewrite (c_double r Hr).
Qed.

(** With no single-scored response the count-weighted mean is the plain
    mean of [H_hat]. *)
Lemma count_weighted_mean_all_double :
  (1 <= N rs)%nat -> H_hat_count_weighted_mean rs = H_hat_mean rs.
Proof.
  intros HN. unfold H_hat_count_weighted_mean, H_hat_mean.
  rewrite weighted_H_hat_sum_all_double, sum_c_counts.
  rewrite all_double, (N1_0_N2 rs all_double), Qc_of_nat_0.
  pose proof (Qc_of_nat_neq_0 (N rs) HN). pose proof Qc_two_neq_0.
  field. qc_side.
Qed.

Lemma true_var_denominator_all_double :
  (1 <= N rs)%nat -> true_var_denominator rs = 2 * (Qc_of_nat (N rs) - 1).
Proof.
  intros HN. unfold true_var_denominator.
  rewrite all_double, (N1_0_N2 rs all_double), Qc_of_nat_0.
  pose proof (Qc_of_nat_neq_0 (N rs) HN). pose proof Qc_two_neq_0.
  field. qc_side.
Qed.

Lemma mse_true_general_all_double :
  (1 <= N rs)%nat -> mse_true_general rs = mse_true_simple rs.
Proof.
  intros HN. unfold mse_true_general, mse_true_simple, mse_H_hat.
  rewrite weighted_sq_error_all_double.
  rewrite all_double, (N1_0_N2 rs all_double), Qc_of_nat_0.
  pose proof (Qc_of_nat_neq_0 (N rs) HN). pose proof Qc_two_neq_0.
  field. qc_side.
Qed.

Lemma true_score_variance_general_all_double :
  (2 <= N rs)%nat ->
  true_score_variance_general (H_hat_mean rs) rs
  = true_score_variance_simple (var_H_hat_sample rs) rs.
Proof.
  intros HN.
  unfold true_score_variance_general, true_score_variance_simple,
    var_H_hat_sample, H_hat_sq_dev.
  rewrite weighted_sq_dev_all_double, true_var_denominator_all_double by lia.
  pose proof (Qc_of_nat_pred_neq_0 (N rs) HN). pose proof Qc_two_neq_0.
  field. qc_side.
Qed.
End AllDoubleScored.

(** ** Measurement error variance *)

Lemma rater_sq_diff_nonneg (r : ResponseRecord) : 0 ≤ rater_sq_diff r.
Proof.
  unfold rater_sq_diff. destruct (human_score_2 r); [apply sq_nonneg|done].
Qed.

(** C6: for every response set with [N2 >= 1], the measurement error
    variance [sigma_e_sq = 1/(2*N2) * Σ (H_i - H2_i)^2], summed over the
    double-scored responses, is non-negative. *)
Theorem sigma_e_sq_nonneg (rs : ResponseSet) :
  (1 <= N2 rs)%nat -> 0 ≤ sigma_e_sq rs.
Proof.
  intros H2. unfold sigma_e_sq. apply Qcmult_nonneg_nonneg.
  - unfold Qcdiv. rewrite Qcmult_1_l.
    apply Qclt_le_weak, Qcinv_pos, Qcmult_pos_pos; [done|].
    by apply Qc_of_nat_pos.
  - apply sumQc_nonneg, Forall_map, Forall_forall.
    intros r _. apply rater_sq_diff_nonneg.
Qed.

Lemma sigma_e_sq_nonneg_witness :
  (1 <= N2 scenario4)%nat /\ 0 ≤ sigma_e_sq scenario4.
Proof.
  split; [vm_compute; lia|].
  apply (sigma_e_sq_nonneg scenario4). vm_compute; lia.
Defined.

(** C7: for every response set with [N2 >= 1] in which [H_i = H2_i] on every
    double-scored record, [sigma_e_sq] is exactly zero. *)
Theorem sigma_e_sq_zero_when_raters_agree (rs : ResponseSet) :
  (1 <= N2 rs)%nat -> raters_agree rs -> sigma_e_sq rs = 0.
Proof.
  intros _ Hagree. unfold sigma_e_sq.
  rewrite sumQc_all_zero; [ring|].
  apply Forall_map, Forall_forall. intros r Hr.
  apply list_elem_of_In, filter_In in Hr as [Hr _].
  unfold raters_agree in Hagree. rewrite Forall_forall in Hagree.
  specialize (Hagree r (proj2 (list_elem_of_In _ _) Hr)).
  unfold rater_sq_diff. destruct (human_score_2 r) as [h2|]; [|done].
  rewrite Hagree. unfold sq. ring.
Qed.

Lemma sigma_e_sq_zero_when_raters_agree_witness :
  (1 <= N2 pair2)%nat /\ raters_agree pair2 /\ sigma_e_sq pair2 = 0.
Proof.
  assert (Hagree : raters_agree pair2) by (repeat constructor).
  assert (H2 : (1 <= N2 pair2)%nat) by (vm_compute; lia).
  split; [exact H2|]. split; [exact Hagree|].
  exact (sigma_e_sq_zero_when_raters_agree pair2 H2 Hagree).
Defined.

(** ** The weighted mean of step 3 *)

(** C2, as stated, fails: on the four-response scenario the formula
    [(Σ c_i * H_hat_i) / N] gives [15/2] while the mean of [H_hat] weighted
    by score count gives [15/4]. *)
Lemma H_hat_bar_not_count_weighted_mean :
  (1 <= N2 scenario4)%nat
  /\ H_hat_bar scenario4 = Q2Qc (15 # 2)
  /\ H_hat_count_weighted_mean scenario4 = Q2Qc (15 # 4)
  /\ H_hat_bar scenario4 <> H_hat_count_weighted_mean scenario4.
Proof.
  split; [vm_compute; lia|].
  split; [qc_eval|]. split; [qc_eval|]. qc_neq.
Qed.

(** C2, amended: for every response set with [N2 >= 1], the quotient
    [(Σ c_i * H_hat_i) / N] and the mean weighted by score count are the
    same weighted sum over different totals,
    [H_hat_bar * N = weighted mean * (N1 + 2*N2)], and they are equal
    exactly when that weighted sum is zero. *)
Theorem H_hat_bar_vs_count_weighted_mean (rs : ResponseSet) :
  (1 <= N2 rs)%nat ->
  H_hat_bar rs * Qc_of_nat (N rs)
  = H_hat_count_weighted_mean rs * (Qc_of_nat (N1 rs) + 2 * Qc_of_nat (N2 rs))
  /\ (H_hat_bar rs = H_hat_count_weighted_mean rs <-> weighted_H_hat_sum rs = 0).
Proof.
  intros H2.
  pose proof (N1_plus_N2 rs) as Hpart.
  assert (Hn : Qc_of_nat (N rs) <> 0) by (apply Qc_of_nat_neq_0; lia).
  assert (Hs : sum_c rs <> 0).
  { intros E. pose proof (sum_c_pos rs H2) as Hpos. rewrite E in Hpos.
    by apply (irreflexivity Qclt 0). }
  assert (Hn2 : Qc_of_nat (N2 rs) <> 0) by (by apply Qc_of_nat_neq_0).
  unfold H_hat_bar, H_hat_count_weighted_mean.
  rewrite <- sum_c_counts. split; [by field|].
  split.
  - intros E.
    assert (Hmul : weighted_H_hat_sum rs * (sum_c rs - Qc_of_nat (N rs)) = 0).
    { transitivity
        ((weighted_H_hat_sum rs / Qc_of_nat (N rs)
          - weighted_H_hat_sum rs / sum_c rs) * (Qc_of_nat (N rs) * sum_c rs)).
      - by field.
      - rewrite E. ring. }
    apply Qcmult_integral in Hmul as [Hw|Hd]; [done|].
    exfalso. apply Hn2.
    rewrite sum_c_counts, <- Hpart, Qc_of_nat_add in Hd.
    rewrite <- Hd. ring.
  - intros ->. unfold Qcdiv. ring.
Qed.

Lemma H_hat_bar_vs_count_weighted_mean_witness :
  H_hat_bar scenario4 * Qc_of_nat (N scenario4)
  = H_hat_count_weighted_mean scenario4
    * (Qc_of_nat (N1 scenario4) + 2 * Qc_of_nat (N2 scenario4))
  /\ (H_hat_bar scenario4 = H_hat_count_weighted_mean scenario4
      <-> weighted_H_hat_sum scenario4 = 0).
Proof.
  apply (H_hat_bar_vs_count_weighted_mean scenario4). vm_compute; lia.
Defined.

(** ** General and simple estimates on fully double-scored data *)

(** C1, as stated, fails for the true-score variance: on two double-scored
    responses with [H_hat = 1, 3] and no rater disagreement, the general
    formula gives [2] around the mean of [H_hat] (and [10] around the
    quotient of step 3) while the divide-by-[N] variance gives [1]. *)
Lemma general_variance_not_population_simple :
  N1 pair2 = 0%nat /\ (1 <= N2 pair2)%nat
  /\ true_score_variance_general (H_hat_bar pair2) pair2
     <> true_score_variance_simple (var_H_hat_population pair2) pair2
  /\ true_score_variance_general (H_hat_count_weighted_mean pair2) pair2
     <> true_score_variance_simple (var_H_hat_population pair2) pair2.
Proof.
  split; [reflexivity|]. split; [vm_compute; lia|].
  split; qc_neq.
Qed.

(** C1, amended: for every response set with [N1 = 0] and [N2 >= 1] the
    general [MSE(T|M)] equals [MSE(H_hat|M) - sigma_e_sq/2]; and, when
    [N >= 2], the general true-score variance taken around the count-weighted
    mean of [H_hat] equals [Var(H_hat) - sigma_e_sq/2] with the variance of
    [H_hat] dividing by [N - 1]. *)
Theorem general_reduces_to_simple (rs : ResponseSet) :
  N1 rs = 0%nat -> (1 <= N2 rs)%nat ->
  mse_true_general rs = mse_true_simple rs
  /\ ((2 <= N rs)%nat ->
      true_score_variance_general (H_hat_count_weighted_mean rs) rs
      = true_score_variance_simple (var_H_hat_sample rs) rs).
Proof.
  intros H1 H2. pose proof (N1_0_N2 rs H1) as HN.
  split.
  - apply mse_true_general_all_double; [done|lia].
  - intros HN2. rewrite count_weighted_mean_all_double by (done || lia).
    by apply true_score_variance_general_all_double.
Qed.

Lemma general_reduces_to_simple_witness :
  mse_true_general scenario4 = mse_true_simple scenario4
  /\ ((2 <= N scenario4)%nat ->
      true_score_variance_general (H_hat_count_weighted_mean scenario4) scenario4
      = true_score_variance_simple (var_H_hat_sample scenario4) scenario4).
Proof.
  apply (general_reduces_to_simple scenario4); [reflexivity | vm_compute; lia].
Defined.

(** ** The four-response scenario *)

(** C5, as stated, fails in its last part: on the scenario the general
    true-score variance is [47/24] around the mean [15/4] (and [497/24]
    around the quotient of step 3), not the [23/16] of the simple formula
    with the divide-by-[N] variance. *)
Lemma scenario4_variance_not_population_simple :
  true_score_variance_simple (var_H_hat_population scenario4) scenario4
  = Q2Qc (23 # 16)
  /\ true_score_variance_general (H_hat_count_weighted_mean scenario4) scenario4
     <> true_score_variance_simple (var_H_hat_population scenario4) scenario4
  /\ true_score_variance_general (H_hat_bar scenario4) scenario4
     <> true_score_variance_simple (var_H_hat_population scenario4) scenario4.
Proof.
  split; [qc_eval|]. split; qc_neq.
Qed.

(** C5, amended: on the four double-scored responses
    [(2,2,2), (3,4,3), (4,4,5), (5,6,4)], [sigma_e_sq = 1/4],
    [H_hat = [2, 7/2, 4, 11/2]] with count-weighted mean [15/4], the general
    and the simple [MSE(T|M)] are both [3/4], and the general true-score
    variance around that mean equals the simple one with the divide-by-[N-1]
    variance, both [47/24]. *)
Theorem scenario4_values :
  N1 scenario4 = 0%nat /\ N2 scenario4 = 4%nat
  /\ sigma_e_sq scenario4 = Q2Qc (1 # 4)
  /\ map H_hat scenario4 = [sc 2; Q2Qc (7 # 2); sc 4; Q2Qc (11 # 2)]
  /\ H_hat_count_weighted_mean scenario4 = Q2Qc (15 # 4)
  /\ mse_true_general scenario4 = Q2Qc (3 # 4)
  /\ mse_true_simple scenario4 = Q2Qc (3 # 4)
  /\ true_score_variance_general (H_hat_count_weighted_mean scenario4) scenario4
     = Q2Qc (47 # 24)
  /\ true_score_variance_simple (var_H_hat_sample scenario4) scenario4
     = Q2Qc (47 # 24).
Proof.
  split; [reflexivity|]. split; [reflexivity|].
  split; [qc_eval|].
  split; [unfold scenario4; simpl map;
          repeat (apply (f_equal2 cons); [qc_eval|]); reflexivity|].
  repeat split; qc_eval.
Qed.

(** * Properties of the estimator *)

Lemma insufficient_data_spec (rs : ResponseSet) :
  insufficient_data rs = true <-> N2 rs = 0%nat \/ (N rs < 2)%nat.
Proof.
  unfold insufficient_data.
  rewrite orb_true_iff, Nat.eqb_eq, Nat.ltb_lt. tauto.
Qed.

Lemma insufficient_data_false (rs : ResponseSet) :
  insufficient_data rs = false <-> (1 <= N2 rs)%nat /\ (2 <= N rs)%nat.
Proof.
  rewrite <- not_true_iff_false, insufficient_data_spec. lia.
Qed.


(** C3: the estimator fails with [InsufficientDataError] exactly when
    [N2 = 0] (however many single-scored responses there are) or [N < 2];
    it returns a [PrmseResult] exactly when [N2 >= 1] and [N >= 2]. *)
Theorem compute_prmse_insufficient_data (rs : ResponseSet) :
  (compute_prmse rs = inl InsufficientDataError
   <-> N2 rs = 0%nat \/ (N rs < 2)%nat)
  /\ ((exists r, compute_prmse rs = inr r)
      <-> (1 <= N2 rs)%nat /\ (2 <= N rs)%nat).
Proof.
  rewrite <- insufficient_data_spec, <- insufficient_data_false.
  unfold compute_prmse.
  destruct (insufficient_data rs); split; split; try done.
  - by intros [r Hr].
  - by eexists.
Qed.

(** However many single-scored responses there are, without a
    double-scored one the estimator fails. *)
Lemma compute_prmse_all_single (rs : ResponseSet) :
  Forall (fun r => human_score_2 r = None) rs ->
  compute_prmse rs = inl InsufficientDataError.
Proof.
  intros Hsingle. unfold compute_prmse.
  rewrite (proj2 (insufficient_data_spec rs)); [done|]. left.
  unfold N2. induction Hsingle as [|r rs' Hr _ IH]; simpl; [done|].
  unfold is_double_scored at 1. by rewrite Hr.
Qed.





(** Without rater disagreement and with the same [H_hat] on every response
    the true-score variance is zero: this is when the marker is returned. *)
Lemma sigma_e_sq_agreeing (rs : ResponseSet) :
  raters_agree rs -> sigma_e_sq rs = 0.
Proof.
  intros Hagree. unfold sigma_e_sq.
  rewrite sumQc_all_zero; [ring|].
  apply Forall_map, Forall_forall. intros r Hr.
  apply list_elem_of_In, filter_In in Hr as [Hr _].
  unfold raters_agree in Hagree. rewrite Forall_forall in Hagree.
  specialize (Hagree r (proj2 (list_elem_of_In _ _) Hr)).
  unfold rater_sq_diff. destruct (human_score_2 r) as [h2|]; [|done].
  rewrite Hagree. unfold sq. ring.
Qed.

Lemma constant_H_hat_zero_variance (rs : ResponseSet) (h : Qc) :
  (1 <= N rs)%nat -> raters_agree rs ->
  Forall (fun r => H_hat r = h) rs ->
  true_score_variance_est rs = 0.
Proof.
  intros HN Hagree Hconst.
  assert (Hne : Qc_of_nat (N rs) <> 0) by (by apply Qc_of_nat_neq_0).
  assert (Hmean : H_hat_mean rs = h).
  { unfold H_hat_mean.
    rewrite (sumQc_ext H_hat (fun _ => h)) by done.
    rewrite sumQc_const. fold (N rs). by field. }
  unfold true_score_variance_est, true_score_variance_general.
  rewrite Hmean, (sigma_e_sq_agreeing rs Hagree).
  assert (Hdev : weighted_sq_dev h rs = 0).
  { unfold weighted_sq_dev. apply sumQc_all_zero, Forall_map.
    eapply Forall_impl; [exact Hconst|]. intros r Hr. simpl.
    rewrite Hr. unfold sq. ring. }
  rewrite Hdev. unfold Qcdiv. ring.
Qed.






(** * Properties of the report cell *)

Lemma keeps_refl (P : gset ref) (k : Kernel) :
  P ⊆ dom (objects k) -> keeps P k k.
Proof. by split. Qed.

Lemma keeps_trans (P : gset ref) (k1 k2 k3 : Kernel) :
  keeps P k1 k2 -> keeps P k2 k3 -> keeps P k1 k3.
Proof.
  intros [_ H12] [Hd H23]. split; [done|].
  intros l Hl. by rewrite H23, H12.
Qed.

Section Respects.
Variable P : gset ref.

Lemma respects_ret {A} (a : A) (Q : A -> Prop) :
  Q a -> respects P (mret a) Q.
Proof.
  intros HQ k Hk. split; [by apply keeps_refl|].
  intros a' Ha. by inversion Ha; subst.
Qed.

Lemma respects_raise {A} (e : exn) (Q : A -> Prop) :
  respects P (nb_raise e) Q.
Proof. intros k Hk. split; [by apply keeps_refl|]. by intros a Ha. Qed.

Lemma respects_bind {A B} (m : Nb A) (f : A -> Nb B)
      (Q : A -> Prop) (R : B -> Prop) :
  respects P m Q -> (forall a, Q a -> respects P (f a) R) ->
  respects P (m ≫= f) R.
Proof.
  intros Hm Hf k Hk. destruct (Hm k Hk) as [Hkeep HQ].
  unfold mbind, nb_mbind, nb_bind.
  destruct (m k) as [[e|a] k'] eqn:Hrun; simpl in *.
  - split; [done|]. by intros b Hb.
  - destruct (Hf a (HQ a eq_refl) k' (proj1 Hkeep)) as [Hkeep' HR].
    split; [by eapply keeps_trans|done].
Qed.

Lemma respects_weaken {A} (m : Nb A) (Q R : A -> Prop) :
  respects P m Q -> (forall a, Q a -> R a) -> respects P m R.
Proof.
  intros Hm HQR k Hk. destruct (Hm k Hk) as [Hkeep HQ].
  split; [done|]. intros a Ha. by apply HQR, HQ.
Qed.

Lemma respects_deref (l : ref) : respects P (deref l) (fun _ => True).
Proof.
  intros k Hk. unfold deref.
  destruct (objects k !! l); simpl; split; auto using keeps_refl.
Qed.

(** A new object never sits behind a reference that was in use. *)
Lemma respects_alloc (df : DataFrame) :
  respects P (alloc df) (fun l => l ∉ P).
Proof.
  intros k Hk. unfold alloc; simpl.
  pose proof (is_fresh (dom (objects k))) as Hfresh.
  assert (HP : fresh (dom (objects k)) ∉ P) by set_solver.
  split; [split|]; simpl.
  - rewrite dom_insert. set_solver.
  - intros l Hl. apply lookup_insert_ne. intros E. apply HP. by rewrite E.
  - intros a Ha. by inversion Ha; subst.
Qed.

(** Overwriting an object outside [P] keeps [P]. *)
Lemma respects_assign (l : ref) (df : DataFrame) :
  l ∉ P -> respects P (assign l df) (fun _ => True).
Proof.
  intros Hl k Hk. unfold assign; simpl. split; [split|done]; simpl.
  - rewrite dom_insert. set_solver.
  - intros l' Hl'. apply lookup_insert_ne. intros E. apply Hl. by rewrite E.
Qed.

Lemma respects_dict_getitem (d : gmap string ref) (key : string) :
  respects P (dict_getitem d key) (fun _ => True).
Proof.
  unfold dict_getitem. destruct (d !! key).
  - by apply respects_ret.
  - apply respects_raise.
Qed.

Lemma respects_display (o : output) : respects P (display o) (fun _ => True).
Proof. intros k Hk. by split; [split|]. Qed.

Lemma respects_set_display_width (w : Z) :
  respects P (set_display_width w) (fun _ => True).
Proof. intros k Hk. by split; [split|]. Qed.

Lemma respects_getitem (l : ref) (names : list string) :
  respects P (getitem l names) (fun l' => l' ∉ P).
Proof.
  unfold getitem. eapply respects_bind; [apply respects_deref|].
  intros df _. destruct (select_columns names df).
  - apply respects_alloc.
  - apply respects_raise.
Qed.

Lemma respects_copy (l : ref) : respects P (copy l) (fun l' => l' ∉ P).
Proof.
  unfold copy. eapply respects_bind; [apply respects_deref|].
  intros df _. apply respects_alloc.
Qed.

Lemma respects_replace_inplace (l : ref) :
  l ∉ P -> respects P (replace_inplace l) (fun _ => True).
Proof.
  intros Hl. unfold replace_inplace.
  eapply respects_bind; [apply respects_deref|].
  intros df _. by apply respects_assign.
Qed.

Variable no_info_str : string.
Variable to_html : DataFrame -> string.

Lemma respects_show_table (out_dfs : gmap string ref) (columns : list string) :
  respects P (show_table to_html out_dfs columns) (fun _ => True).
Proof.
  unfold show_table.
  eapply respects_bind; [apply respects_dict_getitem|]. intros evals _.
  eapply respects_bind; [apply respects_getitem|]. intros selected _.
  eapply respects_bind; [apply respects_copy|]. intros table Htable.
  eapply respects_bind; [by apply respects_replace_inplace|]. intros _ _.
  eapply respects_bind; [apply respects_deref|]. intros df _.
  apply respects_display.
Qed.

Lemma respects_cell (out_dfs : gmap string ref) :
  respects P (true_score_evaluation_cell no_info_str to_html out_dfs)
    (fun _ => True).
Proof.
  unfold true_score_evaluation_cell.
  eapply respects_bind; [apply respects_dict_getitem|]. intros evals _.
  eapply respects_bind; [apply respects_deref|]. intros df _.
  destruct (negb (df_empty df)); [|apply respects_display].
  eapply respects_bind; [apply respects_display|]. intros _ _.
  eapply respects_bind; [apply respects_set_display_width|]. intros _ _.
  eapply respects_bind; [apply respects_show_table|]. intros _ _.
  eapply respects_bind; [apply respects_display|]. intros _ _.
  eapply respects_bind; [apply respects_set_display_width|]. intros _ _.
  apply respects_show_table.
Qed.
End Respects.

(** C10: running the cell leaves the evaluation dataframe as it was, and
    with it every dataframe object that existed before the cell ran,
    whether the cell completes or raises: the objects it changes in place
    are the copies it has made. *)
Theorem cell_leaves_input_unchanged
    (no_info_str : string) (to_html : DataFrame -> string)
    (out_dfs : gmap string ref) (k : Kernel) (l : ref) (df : DataFrame) :
  out_dfs !! "true_score_evaluations"%string = Some l ->
  objects k !! l = Some df ->
  let k' := (true_score_evaluation_cell no_info_str to_html out_dfs k).2 in
  objects k' !! l = Some df
  /\ forall l' d, objects k !! l' = Some d -> objects k' !! l' = Some d.
Proof.
  intros _ Hl k'.
  destruct (respects_cell (dom (objects k)) no_info_str to_html out_dfs k)
    as [[_ Hsame] _]; [done|].
  assert (Hall : forall l' d,
             objects k !! l' = Some d -> objects k' !! l' = Some d).
  { intros l' d Hd. unfold k'. rewrite Hsame; [done|]. by apply elem_of_dom. }
  split; [by apply Hall|done].
Qed.

Lemma cell_leaves_input_unchanged_witness :
  let k' := (true_score_evaluation_cell "No information" (fun _ => "table")
               out_dfs0 kernel0).2 in
  objects k' !! 1%positive = Some evals_df
  /\ forall l' d, objects kernel0 !! l' = Some d -> objects k' !! l' = Some d.
Proof.
  apply (cell_leaves_input_unchanged "No information" (fun _ => "table")
           out_dfs0 kernel0 1%positive evals_df); reflexivity.
Defined.

(** ** Running the cell step by step *)

Lemma nb_bind_run {A B} (m : Nb A) (f : A -> Nb B) (k k' : Kernel) (a : A) :
  m k = (inr a, k') -> (m ≫= f) k = f a k'.
Proof. intros Hm. unfold mbind, nb_mbind, nb_bind. by rewrite Hm. Qed.

Lemma deref_run (l : ref) (k : Kernel) (df : DataFrame) :
  objects k !! l = Some df -> deref l k = (inr df, k).
Proof. intros Hl. unfold deref. by rewrite Hl. Qed.

Lemma getitem_run (l : ref) (names : list string) (k : Kernel)
    (df : DataFrame) (cols : list (string * list cell)) :
  objects k !! l = Some df -> select_columns names df = Some cols ->
  getitem l names k = alloc (mkDataFrame (df_index df) cols) k.
Proof.
  intros Hl Hsel. unfold getitem.
  rewrite (nb_bind_run _ _ k k df) by (by apply deref_run). by rewrite Hsel.
Qed.

Lemma copy_run (l : ref) (k : Kernel) (df : DataFrame) :
  objects k !! l = Some df -> copy l k = alloc df k.
Proof.
  intros Hl. unfold copy.
  by rewrite (nb_bind_run _ _ k k df) by (by apply deref_run).
Qed.

Lemma replace_inplace_run (l : ref) (k : Kernel) (df : DataFrame) :
  objects k !! l = Some df ->
  replace_inplace l k = assign l (replace_nan df) k.
Proof.
  intros Hl. unfold replace_inplace.
  by rewrite (nb_bind_run _ _ k k df) by (by apply deref_run).
Qed.

(** One table, step by step: the selection and its copy are two new
    objects, the replacement changes the copy, and the table shown is the
    rendering of the copy after replacement. *)
Lemma show_table_run
    (to_html : DataFrame -> string) (out_dfs : gmap string ref)
    (columns : list string) (k : Kernel) (l : ref) (df : DataFrame)
    (cols : list (string * list cell)) :
  out_dfs !! "true_score_evaluations"%string = Some l ->
  objects k !! l = Some df ->
  select_columns columns df = Some cols ->
  let selected := mkDataFrame (df_index df) cols in
  let l1 := fresh (dom (objects k)) in
  let l2 := fresh (dom (<[l1 := selected]> (objects k))) in
  show_table to_html out_dfs columns k
  = (inr tt,
     mkKernel
       (<[l2 := replace_nan selected]>
          (<[l2 := selected]> (<[l1 := selected]> (objects k))))
       (pd_display_width k)
       (displayed k
        ++ [HTML (span_open ++ to_html (replace_nan selected) ++ span_close)])).
Proof.
  intros Hkey Hl Hsel selected l1 l2.
  unfold show_table, dict_getitem. rewrite Hkey.
  rewrite (nb_bind_run _ _ k k l) by done.
  set (k1 := mkKernel (<[l1 := selected]> (objects k))
               (pd_display_width k) (displayed k)).
  rewrite (nb_bind_run _ _ k k1 l1) by (by erewrite getitem_run).
  set (k2 := mkKernel (<[l2 := selected]> (objects k1))
               (pd_display_width k) (displayed k)).
  rewrite (nb_bind_run _ _ k1 k2 l2).
  2:{ erewrite copy_run; [done|]. apply lookup_insert_eq. }
  set (k3 := mkKernel (<[l2 := replace_nan selected]> (objects k2))
               (pd_display_width k) (displayed k)).
  rewrite (nb_bind_run _ _ k2 k3 tt).
  2:{ erewrite replace_inplace_run; [done|]. apply lookup_insert_eq. }
  rewrite (nb_bind_run _ _ k3 k3 (replace_nan selected)).
  2:{ apply deref_run. apply lookup_insert_eq. }
  done.
Qed.

Lemma lookup_insert_fresh (m : gmap ref DataFrame) (l : ref) (d x : DataFrame) :
  m !! l = Some d -> <[fresh (dom m) := x]> m !! l = Some d.
Proof.
  intros Hl. rewrite lookup_insert_ne; [done|].
  intros E. apply (is_fresh (dom m)). rewrite E. by apply elem_of_dom.
Qed.

(** The store left by one table still holds every earlier object. *)
Lemma lookup_after_table (m : gmap ref DataFrame) (l : ref)
    (d selected replaced : DataFrame) :
  m !! l = Some d ->
  let l1 := fresh (dom m) in
  let l2 := fresh (dom (<[l1 := selected]> m)) in
  <[l2 := replaced]> (<[l2 := selected]> (<[l1 := selected]> m)) !! l = Some d.
Proof.
  intros Hl l1 l2. rewrite insert_insert_eq.
  by apply lookup_insert_fresh, lookup_insert_fresh.
Qed.

(** The whole cell on a non-empty evaluation dataframe that has the columns
    of both tables: it completes, it shows the two headings and the two
    tables, each table rendered from the selected columns after the
    replacement of missing values, and the evaluation dataframe is as
    before. *)
Lemma cell_run
    (no_info_str : string) (to_html : DataFrame -> string)
    (out_dfs : gmap string ref) (k : Kernel) (l : ref) (df : DataFrame)
    (vcols pcols : list (string * list cell)) :
  out_dfs !! "true_score_evaluations"%string = Some l ->
  objects k !! l = Some df ->
  df_empty df = false ->
  select_columns variance_columns df = Some vcols ->
  select_columns prmse_columns df = Some pcols ->
  let run := true_score_evaluation_cell no_info_str to_html out_dfs k in
  let table cols :=
    HTML (span_open ++ to_html (replace_nan (mkDataFrame (df_index df) cols))
          ++ span_close) in
  run.1 = inr tt
  /\ displayed run.2
     = displayed k
       ++ [Markdown (join_lines variance_markdown); table vcols;
           Markdown (join_lines prmse_markdown); table pcols]
  /\ pd_display_width run.2 = 10%Z
  /\ objects run.2 !! l = Some df.
Proof.
  intros Hkey Hl Hempty Hv Hp run table. unfold run, table.
  unfold true_score_evaluation_cell, dict_getitem. rewrite Hkey.
  rewrite (nb_bind_run _ _ k k l) by done.
  rewrite (nb_bind_run _ _ k k df) by (by apply deref_run).
  rewrite Hempty. cbn [negb].
  set (k1 := mkKernel (objects k) (pd_display_width k)
               (displayed k ++ [Markdown (join_lines variance_markdown)])).
  rewrite (nb_bind_run _ _ k k1 tt) by done.
  set (k2 := mkKernel (objects k) 10 (displayed k1)).
  rewrite (nb_bind_run _ _ k1 k2 tt) by done.
  pose proof (show_table_run to_html out_dfs variance_columns k2 l df vcols
                Hkey Hl Hv) as Hrun1.
  cbv zeta in Hrun1.
  rewrite (nb_bind_run _ _ _ _ _ Hrun1).
  match type of Hrun1 with _ = (_, ?k') => set (k3 := k') in * end.
  assert (Hl3 : objects k3 !! l = Some df) by (by apply lookup_after_table).
  set (k4 := mkKernel (objects k3) (pd_display_width k3)
               (displayed k3 ++ [Markdown (join_lines prmse_markdown)])).
  rewrite (nb_bind_run _ _ k3 k4 tt) by done.
  set (k5 := mkKernel (objects k3) 10 (displayed k4)).
  rewrite (nb_bind_run _ _ k4 k5 tt) by done.
  pose proof (show_table_run to_html out_dfs prmse_columns k5 l df pcols
                Hkey Hl3 Hp) as Hrun2.
  cbv zeta in Hrun2. rewrite Hrun2. simpl.
  split; [done|]. split; [|split; [done|]].
  - by rewrite <- !app_assoc.
  - by apply lookup_after_table.
Qed.

(** The cell on the sample kernel: it completes, the evaluation dataframe
    still holds its missing values, and both tables were shown. *)
Example cell_on_kernel0 :
  let run := true_score_evaluation_cell "No information" (fun _ => "table")
               out_dfs0 kernel0 in
  run.1 = inr tt
  /\ objects run.2 !! 1%positive = Some evals_df
  /\ length (displayed run.2) = 4%nat
  /\ pd_display_width run.2 = 10%Z.
Proof. vm_compute. repeat split. Qed.

(** * Further properties of the metrics *)

(** ** More on sums *)

Lemma sumQc_add {A} (f g : A -> Qc) (l : list A) :
  sumQc (map (fun x => f x + g x) l) = sumQc (map f l) + sumQc (map g l).
Proof.
  induction l as [|x l IH]; simpl; [ring|]. rewrite IH. ring.
Qed.

(** Products of deviations, in terms of the raw moments. *)
Lemma sumQc_prod_shift {A} (f g : A -> Qc) (a b : Qc) (l : list A) :
  sumQc (map (fun x => (f x - a) * (g x - b)) l)
  = sumQc (map (fun x => f x * g x) l)
    - b * sumQc (map f l) - a * sumQc (map g l)
    + Qc_of_nat (length l) * a * b.
Proof.
  induction l as [|x l IH]; simpl.
  - rewrite Qc_of_nat_0. ring.
  - rewrite IH, Qc_of_nat_S. ring.
Qed.

Lemma sumQc_sq_shift {A} (f : A -> Qc) (a : Qc) (l : list A) :
  sumQc (map (fun x => sq (f x - a)) l)
  = sumQc (map (fun x => f x * f x) l)
    - 2 * a * sumQc (map f l) + Qc_of_nat (length l) * a * a.
Proof.
  unfold sq. rewrite sumQc_prod_shift. ring.
Qed.

Lemma sumQc_sq_diff {A} (f g : A -> Qc) (l : list A) :
  sumQc (map (fun x => sq (f x - g x)) l)
  = sumQc (map (fun x => f x * f x) l)
    - 2 * sumQc (map (fun x => f x * g x) l)
    + sumQc (map (fun x => g x * g x) l).
Proof.
  induction l as [|x l IH]; simpl; [ring|]. rewrite IH. unfold sq. ring.
Qed.

Lemma sumQc_map_nonneg {A} (f : A -> Qc) (l : list A) :
  (forall x, 0 ≤ f x) -> 0 ≤ sumQc (map f l).
Proof.
  intros Hf. apply sumQc_nonneg, Forall_map, Forall_forall. by intros x _.
Qed.

(** A sum of non-negative terms vanishes only when every term does. *)
Lemma sumQc_nonneg_zero_iff {A} (f : A -> Qc) (l : list A) :
  (forall x, 0 ≤ f x) ->
  sumQc (map f l) = 0 <-> Forall (fun x => f x = 0) l.
Proof.
  intros Hf. split.
  - induction l as [|x l IH]; simpl; [by constructor|].
    intros Hsum.
    pose proof (Hf x) as Hx. pose proof (sumQc_map_nonneg f l Hf) as Hl.
    assert (Hx0 : f x = 0).
    { apply Qcle_antisym; [|done]. rewrite <- Hsum.
      rewrite <- (Qcplus_0_r (f x)) at 1. by apply Qcplus_le_mono_l. }
    constructor; [done|]. apply IH. rewrite Hx0 in Hsum.
    by rewrite Qcplus_0_l in Hsum.
  - intros Hall. apply sumQc_all_zero. by apply Forall_map.
Qed.

Lemma sumQc_map_le {A} (f g : A -> Qc) (l : list A) :
  (forall x, f x ≤ g x) -> sumQc (map f l) ≤ sumQc (map g l).
Proof.
  intros Hfg. induction l as [|x l IH]; simpl; [done|].
  by apply Qcplus_le_compat.
Qed.

Lemma sumQc_Permutation (l l' : list Qc) :
  Permutation l l' -> sumQc l = sumQc l'.
Proof.
  induction 1 as [|x l l' _ IH|x y l|l l' l'' _ IH1 _ IH2]; simpl.
  - done.
  - by rewrite IH.
  - ring.
  - by rewrite IH1.
Qed.

Lemma filter_Permutation_bool {A} (p : A -> bool) (l l' : list A) :
  Permutation l l' -> Permutation (List.filter p l) (List.filter p l').
Proof.
  induction 1 as [|x l l' _ IH|x y l|l l' l'' _ IH1 _ IH2]; simpl.
  - done.
  - destruct (p x); [by constructor|done].
  - destruct (p x), (p y); try done. apply perm_swap.
  - by etransitivity.
Qed.

Lemma Qc_of_nat_le (n m : nat) : (n <= m)%nat -> Qc_of_nat n ≤ Qc_of_nat m.
Proof.
  intros Hnm. unfold Qc_of_nat.
  apply (proj1 (Z2Qc_inj_le (Z.of_nat n) (Z.of_nat m))). lia.
Qed.

Lemma Qc_of_nat_nonneg (n : nat) : 0 ≤ Qc_of_nat n.
Proof. rewrite <- Qc_of_nat_0. apply Qc_of_nat_le. lia. Qed.

Lemma Qcdiv_nonneg (x y : Qc) : 0 ≤ x -> 0 ≤ y -> 0 ≤ x / y.
Proof.
  intros Hx Hy. unfold Qcdiv. apply Qcmult_nonneg_nonneg; [done|].
  destruct (decide (y = 0)) as [->|Hne]; [done|].
  apply Qclt_le_weak, Qcinv_pos.
  destruct (Qcle_lt_or_eq _ _ Hy) as [Hlt|Heq]; [done|]. by symmetry in Heq.
Qed.

Lemma Qcdiv_le_mono (x y z : Qc) : 0 < z -> x ≤ y -> x / z ≤ y / z.
Proof.
  intros Hz Hxy. unfold Qcdiv.
  apply Qcmult_le_mono_nonneg_r; [|done].
  by apply Qclt_le_weak, Qcinv_pos.
Qed.

(** ** The denominators of the general estimates *)

Lemma total_scores_counts (rs : ResponseSet) :
  Qc_of_nat (N1 rs) + 2 * Qc_of_nat (N2 rs) = Qc_of_nat (N1 rs + 2 * N2 rs).
Proof.
  rewrite Qc_of_nat_add. f_equal.
  replace (2 * N2 rs)%nat with (N2 rs + N2 rs)%nat by lia.
  rewrite Qc_of_nat_add. ring.
Qed.

(** On two or more responses of which at least one is double-scored, no
    divisor of the true-score estimates is zero: the [2 * N2] of
    [sigma_e_sq], the number of scores [N1 + 2*N2] of [MSE(T|M)] and the
    denominator of the true-score variance are positive, the last at least
    [N - 1]. *)
Theorem general_denominators_positive (rs : ResponseSet) :
  (2 <= N rs)%nat -> (1 <= N2 rs)%nat ->
  0 < 2 * Qc_of_nat (N2 rs)
  /\ 0 < Qc_of_nat (N1 rs) + 2 * Qc_of_nat (N2 rs)
  /\ Qc_of_nat (N rs) - 1 ≤ true_var_denominator rs
  /\ 0 < true_var_denominator rs.
Proof.
  intros HN HN2. pose proof (N1_plus_N2 rs) as Hpart.
  assert (H2 : 0 < 2 * Qc_of_nat (N2 rs)).
  { apply Qcmult_pos_pos; [done|]. by apply Qc_of_nat_pos. }
  assert (Hs : 0 < Qc_of_nat (N1 rs) + 2 * Qc_of_nat (N2 rs)).
  { rewrite total_scores_counts. apply Qc_of_nat_pos. lia. }
  assert (Hn1 : 0 < Qc_of_nat (N rs) - 1).
  { destruct (N rs) as [|n]; [lia|]. rewrite Qc_of_nat_S.
    replace (1 + Qc_of_nat n - 1) with (Qc_of_nat n) by ring.
    apply Qc_of_nat_pos. lia. }
  assert (Hterm : 0 ≤ Qc_of_nat (N2 rs)
                      * (Qc_of_nat (N1 rs) + 2 * Qc_of_nat (N2 rs) - 2)
                      / (Qc_of_nat (N1 rs) + 2 * Qc_of_nat (N2 rs))).
  { apply Qcdiv_nonneg; [|by apply Qclt_le_weak].
    apply Qcmult_nonneg_nonneg; [apply Qc_of_nat_nonneg|].
    rewrite total_scores_counts, <- Z2Qc_inj_2.
    unfold Qc_of_nat. rewrite <- Z2Qc_inj_sub, <- Z2Qc_inj_0.
    apply (proj1 (Z2Qc_inj_le _ _)). lia. }
  assert (Hge : Qc_of_nat (N rs) - 1 ≤ true_var_denominator rs).
  { unfold true_var_denominator.
    rewrite <- (Qcplus_0_r (Qc_of_nat (N rs) - 1)) at 1.
    by apply Qcplus_le_mono_l. }
  split; [done|]. split; [done|]. split; [done|]. by eapply Qclt_le_trans.
Qed.

Lemma general_denominators_positive_witness :
  0 < 2 * Qc_of_nat (N2 mixed5)
  /\ 0 < Qc_of_nat (N1 mixed5) + 2 * Qc_of_nat (N2 mixed5)
  /\ Qc_of_nat (N mixed5) - 1 ≤ true_var_denominator mixed5
  /\ 0 < true_var_denominator mixed5.
Proof.
  apply (general_denominators_positive mixed5); vm_compute; lia.
Defined.

(** ** Perfect prediction and the range of PRMSE *)

Lemma weighted_sq_error_nonneg (rs : ResponseSet) : 0 ≤ weighted_sq_error rs.
Proof.
  unfold weighted_sq_error. apply sumQc_map_nonneg. intros r.
  apply Qcmult_nonneg_nonneg; [|apply sq_nonneg].
  unfold c. by destruct (is_double_scored r).
Qed.

Lemma weighted_sq_error_exact (rs : ResponseSet) :
  predicts_H_hat rs -> weighted_sq_error rs = 0.
Proof.
  intros Hexact. unfold weighted_sq_error. apply sumQc_all_zero, Forall_map.
  eapply Forall_impl; [exact Hexact|]. intros r Hr. simpl.
  rewrite Hr. unfold sq. ring.
Qed.

(** With at least one double-scored response, [MSE(T|M)] is never below
    [- N * sigma_e_sq / (N1 + 2*N2)], and it takes that value, which is not
    positive, when the system reproduces every [H_hat_i]; PRMSE is then at
    least [1] for any positive true-score variance. *)
Theorem mse_true_general_lower_bound (rs : ResponseSet) :
  (1 <= N2 rs)%nat ->
  let floor := - (Qc_of_nat (N rs) * sigma_e_sq rs)
               / (Qc_of_nat (N1 rs) + 2 * Qc_of_nat (N2 rs)) in
  floor ≤ mse_true_general rs
  /\ floor ≤ 0
  /\ (predicts_H_hat rs ->
      mse_true_general rs = floor
      /\ forall var, 0 < var -> 1 ≤ PRMSE (mse_true_general rs) var).
Proof.
  intros H2 floor.
  assert (Hs : 0 < Qc_of_nat (N1 rs) + 2 * Qc_of_nat (N2 rs)).
  { rewrite <- sum_c_counts. by apply sum_c_pos. }
  assert (Hfloor : floor ≤ 0).
  { unfold floor.
    replace (- (Qc_of_nat (N rs) * sigma_e_sq rs)
             / (Qc_of_nat (N1 rs) + 2 * Qc_of_nat (N2 rs)))
      with (- ((Qc_of_nat (N rs) * sigma_e_sq rs)
               / (Qc_of_nat (N1 rs) + 2 * Qc_of_nat (N2 rs))))
      by (unfold Qcdiv; ring).
    replace 0 with (- 0) by ring. apply Qcopp_le_compat.
    apply Qcdiv_nonneg; [|by apply Qclt_le_weak].
    apply Qcmult_nonneg_nonneg; [apply Qc_of_nat_nonneg|].
    unfold sigma_e_sq. apply Qcmult_nonneg_nonneg.
    - apply Qcdiv_nonneg; [done|].
      apply Qcmult_nonneg_nonneg; [done|apply Qc_of_nat_nonneg].
    - apply sumQc_map_nonneg, rater_sq_diff_nonneg. }
  split; [|split; [done|]].
  - unfold floor, mse_true_general. apply Qcdiv_le_mono; [done|].
    pose proof (weighted_sq_error_nonneg rs) as Hw.
    replace (- (Qc_of_nat (N rs) * sigma_e_sq rs))
      with (0 - Qc_of_nat (N rs) * sigma_e_sq rs) by ring.
    by apply Qcplus_le_mono_r.
  - intros Hexact.
    assert (E : mse_true_general rs = floor).
    { unfold floor, mse_true_general.
      rewrite (weighted_sq_error_exact rs Hexact). f_equal. ring. }
    split; [done|]. intros var Hvar. rewrite E. unfold PRMSE.
    assert (Hq : 0 ≤ (- floor) / var).
    { apply Qcdiv_nonneg; [|by apply Qclt_le_weak].
      replace 0 with (- 0) by ring. by apply Qcopp_le_compat. }
    replace (1 - floor / var) with (1 + (- floor) / var)
      by (unfold Qcdiv; ring).
    rewrite <- (Qcplus_0_r 1) at 1. by apply Qcplus_le_mono_l.
Qed.

Lemma mse_true_general_lower_bound_witness :
  let floor := - (Qc_of_nat (N disagreeing2) * sigma_e_sq disagreeing2)
               / (Qc_of_nat (N1 disagreeing2) + 2 * Qc_of_nat (N2 disagreeing2)) in
  floor ≤ mse_true_general disagreeing2
  /\ floor ≤ 0
  /\ (predicts_H_hat disagreeing2 ->
      mse_true_general disagreeing2 = floor
      /\ forall var, 0 < var -> 1 ≤ PRMSE (mse_true_general disagreeing2) var).
Proof.
  apply (mse_true_general_lower_bound disagreeing2). vm_compute; lia.
Defined.

(** For a positive true-score variance, PRMSE is at most [1] exactly when
    [MSE(T|M)] is not negative, and is not negative exactly when [MSE(T|M)]
    does not exceed the variance. *)
Theorem PRMSE_range (mse var : Qc) :
  0 < var ->
  (PRMSE mse var ≤ 1 <-> 0 ≤ mse) /\ (0 ≤ PRMSE mse var <-> mse ≤ var).
Proof.
  intros Hvar. unfold PRMSE.
  assert (Hne : var <> 0) by (intros ->; by apply (irreflexivity Qclt 0)).
  assert (Hmul : mse / var * var = mse) by (by field).
  split.
  - rewrite (Qcplus_le_mono_r _ _ (mse / var)).
    replace (1 - mse / var + mse / var) with (0 + 1) by ring.
    rewrite (Qcplus_comm 1 (mse / var)), <- Qcplus_le_mono_r.
    rewrite (Qcmult_le_mono_pos_r 0 (mse / var) var Hvar).
    by rewrite Qcmult_0_l, Hmul.
  - rewrite (Qcplus_le_mono_r _ _ (mse / var)).
    replace (1 - mse / var + mse / var) with 1 by ring.
    rewrite Qcplus_0_l.
    rewrite (Qcmult_le_mono_pos_r (mse / var) 1 var Hvar).
    by rewrite Qcmult_1_l, Hmul.
Qed.

Lemma PRMSE_range_witness :
  (PRMSE (mse_true_general scenario4)
         (true_score_variance_general (H_hat_mean scenario4) scenario4) ≤ 1
   <-> 0 ≤ mse_true_general scenario4)
  /\ (0 ≤ PRMSE (mse_true_general scenario4)
               (true_score_variance_general (H_hat_mean scenario4) scenario4)
      <-> mse_true_general scenario4
          ≤ true_score_variance_general (H_hat_mean scenario4) scenario4).
Proof.
  apply (PRMSE_range (mse_true_general scenario4)
           (true_score_variance_general (H_hat_mean scenario4) scenario4)).
  vm_compute. reflexivity.
Defined.

(** ** The order of the responses *)

Lemma sumQc_map_Permutation {A} (f : A -> Qc) (l l' : list A) :
  Permutation l l' -> sumQc (map f l) = sumQc (map f l').
Proof. intros Hp. by apply sumQc_Permutation, Permutation_map. Qed.

Lemma counts_Permutation (rs rs' : ResponseSet) :
  Permutation rs rs' -> N rs = N rs' /\ N1 rs = N1 rs' /\ N2 rs = N2 rs'.
Proof.
  intros Hp. unfold N, N1, N2. split; [by apply Permutation_length|].
  split; by apply Permutation_length, filter_Permutation_bool.
Qed.

(** The estimates do not depend on the order of the responses:
    [sigma_e_sq], the mean of [H_hat], the general [MSE(T|M)] and the general
    true-score variance around any centre are the same for a response set
    and any rearrangement of it. *)
Theorem estimates_order_independent (rs rs' : ResponseSet) :
  Permutation rs rs' ->
  sigma_e_sq rs = sigma_e_sq rs'
  /\ H_hat_mean rs = H_hat_mean rs'
  /\ mse_true_general rs = mse_true_general rs'
  /\ forall hbar,
       true_score_variance_general hbar rs
       = true_score_variance_general hbar rs'.
Proof.
  intros Hp. destruct (counts_Permutation rs rs' Hp) as (HN & HN1 & HN2).
  assert (Hsig : sigma_e_sq rs = sigma_e_sq rs').
  { unfold sigma_e_sq. rewrite HN2. f_equal.
    by apply sumQc_map_Permutation, filter_Permutation_bool. }
  split; [done|]. split; [|split].
  - unfold H_hat_mean. rewrite HN. f_equal. by apply sumQc_map_Permutation.
  - unfold mse_true_general, weighted_sq_error.
    rewrite HN, HN1, HN2, Hsig. do 2 f_equal. by apply sumQc_map_Permutation.
  - intros hbar.
    unfold true_score_variance_general, true_var_denominator, weighted_sq_dev.
    rewrite HN, HN1, HN2, Hsig. do 2 f_equal. by apply sumQc_map_Permutation.
Qed.

Lemma estimates_order_independent_witness :
  sigma_e_sq scenario4 = sigma_e_sq (rev scenario4)
  /\ H_hat_mean scenario4 = H_hat_mean (rev scenario4)
  /\ mse_true_general scenario4 = mse_true_general (rev scenario4)
  /\ forall hbar,
       true_score_variance_general hbar scenario4
       = true_score_variance_general hbar (rev scenario4).
Proof.
  apply (estimates_order_independent scenario4 (rev scenario4)).
  apply Permutation_rev.
Defined.

(** ** The unit and origin of the score scale *)

Lemma is_double_scored_rescale (k a : Qc) (r : ResponseRecord) :
  is_double_scored (rescale_record k a r) = is_double_scored r.
Proof. unfold is_double_scored. simpl. by destruct (human_score_2 r). Qed.

Lemma filter_rescale (k a : Qc) (p : ResponseRecord -> bool) (rs : ResponseSet) :
  (forall r, p (rescale_record k a r) = p r) ->
  List.filter p (rescale k a rs) = rescale k a (List.filter p rs).
Proof.
  intros Hp. unfold rescale. induction rs as [|r rs IH]; simpl; [done|].
  rewrite Hp. destruct (p r); simpl; by rewrite IH.
Qed.

Lemma counts_rescale (k a : Qc) (rs : ResponseSet) :
  N (rescale k a rs) = N rs /\ N1 (rescale k a rs) = N1 rs
  /\ N2 (rescale k a rs) = N2 rs.
Proof.
  unfold N, N1, N2. split; [apply length_map|].
  split; rewrite filter_rescale; try apply length_map.
  - intros r. unfold is_single_scored. by rewrite is_double_scored_rescale.
  - apply is_double_scored_rescale.
Qed.

Lemma H_hat_rescale (k a : Qc) (r : ResponseRecord) :
  H_hat (rescale_record k a r) = k * H_hat r + a.
Proof.
  unfold H_hat. simpl. destruct (human_score_2 r); simpl; [|done].
  field. qc_side.
Qed.

Lemma c_rescale (k a : Qc) (r : ResponseRecord) : c (rescale_record k a r) = c r.
Proof. unfold c. by rewrite is_double_scored_rescale. Qed.

Lemma sigma_e_sq_rescale (k a : Qc) (rs : ResponseSet) :
  sigma_e_sq (rescale k a rs) = k * k * sigma_e_sq rs.
Proof.
  destruct (counts_rescale k a rs) as (_ & _ & HN2).
  unfold sigma_e_sq. rewrite HN2.
  rewrite filter_rescale by apply is_double_scored_rescale.
  unfold rescale. rewrite map_map.
  rewrite (sumQc_ext _ (fun r => (k * k) * rater_sq_diff r)).
  - rewrite sumQc_scale. ring.
  - apply Forall_forall. intros r _. unfold rater_sq_diff. simpl.
    destruct (human_score_2 r); simpl; unfold sq; ring.
Qed.

Lemma mse_true_general_rescale (k a : Qc) (rs : ResponseSet) :
  mse_true_general (rescale k a rs) = k * k * mse_true_general rs.
Proof.
  destruct (counts_rescale k a rs) as (HN & HN1 & HN2).
  unfold mse_true_general, weighted_sq_error.
  rewrite HN, HN1, HN2, sigma_e_sq_rescale.
  unfold rescale. rewrite map_map.
  rewrite (sumQc_ext _ (fun r => (k * k) * (c r * sq (H_hat r - system_score r)))).
  - rewrite sumQc_scale. unfold Qcdiv. ring.
  - apply Forall_forall. intros r _.
    rewrite c_rescale, H_hat_rescale. simpl. unfold sq. ring.
Qed.

Lemma true_score_variance_general_rescale (k a hbar : Qc) (rs : ResponseSet) :
  true_score_variance_general (k * hbar + a) (rescale k a rs)
  = k * k * true_score_variance_general hbar rs.
Proof.
  destruct (counts_rescale k a rs) as (HN & HN1 & HN2).
  unfold true_score_variance_general, true_var_denominator, weighted_sq_dev.
  rewrite HN, HN1, HN2, sigma_e_sq_rescale.
  unfold rescale. rewrite map_map.
  rewrite (sumQc_ext _ (fun r => (k * k) * (c r * sq (H_hat r - hbar)))).
  - rewrite sumQc_scale. unfold Qcdiv. ring.
  - apply Forall_forall. intros r _.
    rewrite c_rescale, H_hat_rescale. unfold sq. ring.
Qed.

Lemma H_hat_mean_rescale (k a : Qc) (rs : ResponseSet) :
  (1 <= N rs)%nat -> H_hat_mean (rescale k a rs) = k * H_hat_mean rs + a.
Proof.
  intros HN. destruct (counts_rescale k a rs) as (HN' & _ & _).
  unfold H_hat_mean. rewrite HN'. unfold rescale. rewrite map_map.
  rewrite (sumQc_ext _ (fun r => k * H_hat r + a))
    by (apply Forall_forall; intros r _; apply H_hat_rescale).
  rewrite sumQc_add, sumQc_scale, sumQc_const.
  pose proof (Qc_of_nat_neq_0 (N rs) HN). unfold N in *. by field.
Qed.

(** Replacing every score [x] by [k * x + a] multiplies [sigma_e_sq], the
    general [MSE(T|M)] and the general true-score variance (its centre moved
    along) by [k^2]; the shift [a] has no effect. *)
Theorem estimates_under_rescaling (k a : Qc) (rs : ResponseSet) :
  sigma_e_sq (rescale k a rs) = k * k * sigma_e_sq rs
  /\ mse_true_general (rescale k a rs) = k * k * mse_true_general rs
  /\ forall hbar,
       true_score_variance_general (k * hbar + a) (rescale k a rs)
       = k * k * true_score_variance_general hbar rs.
Proof.
  split; [apply sigma_e_sq_rescale|].
  split; [apply mse_true_general_rescale|].
  intros hbar. apply true_score_variance_general_rescale.
Qed.

(** PRMSE, computed from the general estimates around the mean of [H_hat],
    is the same after a change of unit ([k <> 0]) and origin of the score
    scale. *)
Theorem PRMSE_scale_invariant (k a : Qc) (rs : ResponseSet) :
  k <> 0 -> (1 <= N rs)%nat ->
  PRMSE (mse_true_general (rescale k a rs))
        (true_score_variance_general (H_hat_mean (rescale k a rs))
           (rescale k a rs))
  = PRMSE (mse_true_general rs)
          (true_score_variance_general (H_hat_mean rs) rs).
Proof.
  intros Hk HN.
  rewrite H_hat_mean_rescale, true_score_variance_general_rescale,
    mse_true_general_rescale by done.
  unfold PRMSE. f_equal.
  set (m := mse_true_general rs).
  set (v := true_score_variance_general (H_hat_mean rs) rs).
  destruct (decide (v = 0)) as [E|Hv].
  - assert (E0 : / (0 : Qc) = 0) by (by apply Qc_is_canon).
    rewrite E. unfold Qcdiv. rewrite Qcmult_0_r, E0. ring.
  - by field.
Qed.

Lemma PRMSE_scale_invariant_witness :
  PRMSE (mse_true_general (rescale (sc 10) (sc 3) scenario4))
        (true_score_variance_general
           (H_hat_mean (rescale (sc 10) (sc 3) scenario4))
           (rescale (sc 10) (sc 3) scenario4))
  = PRMSE (mse_true_general scenario4)
          (true_score_variance_general (H_hat_mean scenario4) scenario4).
Proof.
  apply (PRMSE_scale_invariant (sc 10) (sc 3) scenario4);
    [qc_neq | vm_compute; lia].
Defined.

(** * Properties of the observed-score metrics *)

Lemma Qcinv_nonneg (y : Qc) : 0 ≤ y -> 0 ≤ / y.
Proof.
  intros Hy. rewrite <- (Qcmult_1_l (/ y)). by apply (Qcdiv_nonneg 1 y).
Qed.

Lemma sumQc_div {A} (f : A -> Qc) (n : Qc) (l : list A) :
  sumQc (map (fun x => f x / n) l) = sumQc (map f l) / n.
Proof.
  rewrite (sumQc_ext _ (fun x => / n * f x))
    by (apply Forall_forall; intros x _; unfold Qcdiv; ring).
  rewrite sumQc_scale. unfold Qcdiv. ring.
Qed.

Lemma sumQc_le_length {A} (f : A -> Qc) (l : list A) :
  (forall x, f x ≤ 1) -> sumQc (map f l) ≤ Qc_of_nat (length l).
Proof.
  intros Hf. induction l as [|x l IH]; simpl.
  - by rewrite Qc_of_nat_0.
  - rewrite Qc_of_nat_S. by apply Qcplus_le_compat.
Qed.

(** Weights of at most [1] add up to the number of terms only when each of
    them is [1]. *)
Lemma sumQc_eq_length_iff {A} (f : A -> Qc) (l : list A) :
  (forall x, f x ≤ 1) ->
  sumQc (map f l) = Qc_of_nat (length l) <-> Forall (fun x => f x = 1) l.
Proof.
  intros Hf.
  assert (Hcompl : sumQc (map (fun x => 1 - f x) l)
                   = Qc_of_nat (length l) - sumQc (map f l)).
  { induction l as [|x l IH]; simpl.
    - rewrite Qc_of_nat_0. ring.
    - rewrite IH, Qc_of_nat_S. ring. }
  assert (Hnonneg : forall x, 0 ≤ 1 - f x).
  { intros x. apply (proj1 (Qcle_minus_iff (f x) 1)), Hf. }
  pose proof (sumQc_nonneg_zero_iff (fun x => 1 - f x) l Hnonneg) as Hiff.
  rewrite Hcompl in Hiff. split.
  - intros E. eapply Forall_impl; [apply Hiff; rewrite E; ring|].
    intros x Hx. simpl in Hx. rewrite <- (Qcplus_0_r (f x)), <- Hx. ring.
  - intros Hall.
    assert (H0 : Qc_of_nat (length l) - sumQc (map f l) = 0).
    { apply Hiff. eapply Forall_impl; [exact Hall|].
      intros x Hx. simpl. rewrite Hx. ring. }
    rewrite <- (Qcplus_0_r (sumQc (map f l))), <- H0. ring.
Qed.

Lemma w_exact_le_adjacent (r : ResponseRecord) : w_exact r ≤ w_adjacent r.
Proof.
  unfold w_exact, w_adjacent.
  destruct (decide (system_score r = human_score_1 r)) as [E|_];
    destruct (decide _) as [_|Hfar]; try done.
  exfalso. apply Hfar. rewrite E.
  replace (human_score_1 r - human_score_1 r) with 0 by ring. done.
Qed.

Lemma w_exact_range (r : ResponseRecord) : 0 ≤ w_exact r /\ w_exact r ≤ 1.
Proof. unfold w_exact. by destruct (decide _). Qed.

Lemma w_adjacent_range (r : ResponseRecord) : 0 ≤ w_adjacent r /\ w_adjacent r ≤ 1.
Proof. unfold w_adjacent. by destruct (decide _). Qed.

Lemma hundred_pos : 0 < Qc_of_Z 100.
Proof. done. Qed.

(** Both agreement percentages lie between [0] and [100], and the exact
    agreement never exceeds the exact + adjacent agreement. *)
Theorem agreement_bounds (rs : ResponseSet) :
  0 ≤ exact_agreement rs
  /\ exact_agreement rs ≤ adjacent_agreement rs
  /\ adjacent_agreement rs ≤ Qc_of_Z 100.
Proof.
  unfold exact_agreement, adjacent_agreement.
  pose proof (Qc_of_nat_nonneg (N rs)) as Hn.
  pose proof (Qclt_le_weak _ _ hundred_pos) as H100.
  split; [|split].
  - apply Qcmult_nonneg_nonneg; [|done].
    apply sumQc_map_nonneg. intros r.
    apply Qcdiv_nonneg; [apply w_exact_range|done].
  - apply Qcmult_le_mono_nonneg_r; [done|].
    apply sumQc_map_le. intros r. unfold Qcdiv.
    apply Qcmult_le_mono_nonneg_r; [|apply w_exact_le_adjacent].
    by apply Qcinv_nonneg.
  - rewrite <- (Qcmult_1_l (Qc_of_Z 100)) at 2.
    apply Qcmult_le_mono_nonneg_r; [done|].
    rewrite sumQc_div.
    destruct (decide (N rs = 0%nat)) as [E|E].
    + rewrite E, Qc_of_nat_0. unfold Qcdiv.
      assert (E0 : / (0 : Qc) = 0) by (by apply Qc_is_canon).
      by rewrite E0, Qcmult_0_r.
    + assert (Hpos : 0 < Qc_of_nat (N rs)) by (apply Qc_of_nat_pos; lia).
      assert (Hne : Qc_of_nat (N rs) <> 0) by (apply Qc_of_nat_neq_0; lia).
      replace 1 with (Qc_of_nat (N rs) / Qc_of_nat (N rs)) by (by field).
      apply Qcdiv_le_mono; [done|].
      apply sumQc_le_length. intros r. apply w_adjacent_range.
Qed.

(** On a non-empty response set the exact agreement is [100] exactly when
    the system score equals the human score on every response. *)
Theorem exact_agreement_full_iff (rs : ResponseSet) :
  (1 <= N rs)%nat ->
  exact_agreement rs = Qc_of_Z 100 <-> predicts_H rs.
Proof.
  intros HN.
  assert (Hne : Qc_of_nat (N rs) <> 0) by (by apply Qc_of_nat_neq_0).
  assert (H100 : Qc_of_Z 100 <> 0) by qc_neq.
  unfold exact_agreement. rewrite sumQc_div.
  assert (Hw : Forall (fun r => w_exact r = 1) rs <-> predicts_H rs).
  { unfold predicts_H. split; intros Hall; eapply Forall_impl; try exact Hall;
      intros r; simpl; unfold w_exact; by destruct (decide _). }
  rewrite <- Hw, <- (sumQc_eq_length_iff w_exact rs (fun r => proj2 (w_exact_range r))).
  fold (N rs). split.
  - intros E.
    assert (E' : sumQc (map w_exact rs) / Qc_of_nat (N rs) * Qc_of_Z 100
                 * (Qc_of_nat (N rs) / Qc_of_Z 100)
                 = Qc_of_Z 100 * (Qc_of_nat (N rs) / Qc_of_Z 100))
      by (by rewrite E).
    rewrite <- (Qcmult_div_r (Qc_of_nat (N rs)) (Qc_of_Z 100) H100).
    rewrite <- E'. by field.
  - intros ->. by field.
Qed.

Lemma exact_agreement_full_iff_witness :
  exact_agreement pair2 = Qc_of_Z 100 <-> predicts_H pair2.
Proof. apply (exact_agreement_full_iff pair2). vm_compute; lia. Defined.

Lemma sq_zero_iff (x : Qc) : sq x = 0 <-> x = 0.
Proof.
  unfold sq. split.
  - intros E. by apply Qcmult_integral in E as [E|E].
  - intros ->. ring.
Qed.

Lemma sq_errors_zero_iff (rs : ResponseSet) :
  Forall (fun r => sq (human_score_1 r - system_score r) = 0) rs
  <-> predicts_H rs.
Proof.
  unfold predicts_H. split; intros Hall; eapply Forall_impl; try exact Hall;
    intros r; simpl; rewrite sq_zero_iff; intros E.
  - rewrite <- (Qcplus_0_r (system_score r)), <- E. ring.
  - rewrite E. ring.
Qed.

Lemma mse_observed_nonneg (rs : ResponseSet) : 0 ≤ mse_observed rs.
Proof.
  unfold mse_observed. apply Qcmult_nonneg_nonneg.
  - apply Qcdiv_nonneg; [done|apply Qc_of_nat_nonneg].
  - apply sumQc_map_nonneg. intros r. apply sq_nonneg.
Qed.

Lemma mse_observed_zero_iff (rs : ResponseSet) :
  (1 <= N rs)%nat -> mse_observed rs = 0 <-> predicts_H rs.
Proof.
  intros HN.
  assert (Hne : Qc_of_nat (N rs) <> 0) by (by apply Qc_of_nat_neq_0).
  rewrite <- sq_errors_zero_iff.
  rewrite <- (sumQc_nonneg_zero_iff
                (fun r => sq (human_score_1 r - system_score r)) rs)
    by (intros r; apply sq_nonneg).
  unfold mse_observed. split.
  - intros E. apply Qcmult_integral in E as [E|E]; [|done].
    exfalso. pose proof (Qcmult_div_r 1 (Qc_of_nat (N rs)) Hne) as H1.
    rewrite E, Qcmult_0_r in H1. symmetry in H1. by apply Q_apart_0_1 in H1.
  - intros ->. ring.
Qed.

(** On a non-empty response set [MSE(H|M)] is never negative, and it is
    zero exactly when the system score equals the human score on every
    response. *)
Theorem mse_observed_zero_exactly_when_exact (rs : ResponseSet) :
  (1 <= N rs)%nat ->
  0 ≤ mse_observed rs /\ (mse_observed rs = 0 <-> predicts_H rs).
Proof.
  intros HN. split; [apply mse_observed_nonneg|by apply mse_observed_zero_iff].
Qed.

Lemma mse_observed_zero_exactly_when_exact_witness :
  0 ≤ mse_observed scenario4
  /\ (mse_observed scenario4 = 0 <-> predicts_H scenario4).
Proof.
  apply (mse_observed_zero_exactly_when_exact scenario4). vm_compute; lia.
Defined.

Lemma sigma_H_sq_nonneg (rs : ResponseSet) : (2 <= N rs)%nat -> 0 ≤ sigma_H_sq rs.
Proof.
  intros HN. unfold sigma_H_sq. apply Qcdiv_nonneg.
  - apply sumQc_map_nonneg. intros r. apply sq_nonneg.
  - destruct (N rs) as [|n]; [lia|]. rewrite Qc_of_nat_S.
    replace (1 + Qc_of_nat n - 1) with (Qc_of_nat n) by ring.
    apply Qc_of_nat_nonneg.
Qed.

(** A ratio of a non-negative numerator to a positive denominator is zero
    only for a zero numerator. *)
Lemma one_minus_ratio (m d : Qc) :
  0 ≤ m -> 0 < d -> 1 - m / d ≤ 1 /\ (1 - m / d = 1 <-> m = 0).
Proof.
  intros Hm Hd.
  assert (Hne : d <> 0) by (intros ->; by apply (irreflexivity Qclt 0)).
  split.
  - rewrite (Qcplus_le_mono_r _ _ (m / d)).
    replace (1 - m / d + m / d) with (1 + 0) by ring.
    apply Qcplus_le_mono_l, Qcdiv_nonneg; [done|by apply Qclt_le_weak].
  - split.
    + intros E. rewrite <- (Qcmult_div_r m d Hne).
      replace (m / d) with (1 - (1 - m / d)) by ring. rewrite E. ring.
    + intros ->. unfold Qcdiv. ring.
Qed.

(** On two or more responses whose human scores are not all equal
    ([sigma_H^2 <> 0]), [R2] is at most [1], and it is [1] exactly when the
    system score equals the human score on every response. *)
Theorem R2_at_most_one (rs : ResponseSet) :
  (2 <= N rs)%nat -> sigma_H_sq rs <> 0 ->
  R2 rs ≤ 1 /\ (R2 rs = 1 <-> predicts_H rs).
Proof.
  intros HN Hvar.
  assert (Hpos : 0 < sigma_H_sq rs).
  { destruct (Qcle_lt_or_eq _ _ (sigma_H_sq_nonneg rs HN)) as [Hlt|Heq];
      [done|by symmetry in Heq]. }
  destruct (one_minus_ratio (mse_observed rs) (sigma_H_sq rs)
              (mse_observed_nonneg rs) Hpos) as [Hle Hiff].
  split; [exact Hle|].
  unfold R2. rewrite Hiff. apply mse_observed_zero_iff. lia.
Qed.

Lemma R2_at_most_one_witness :
  R2 scenario4 ≤ 1 /\ (R2 scenario4 = 1 <-> predicts_H scenario4).
Proof.
  apply (R2_at_most_one scenario4); [vm_compute; lia | qc_neq].
Defined.

(** ** Quadratic weighted kappa *)

Lemma QWK_denominator_nonneg (rs : ResponseSet) : 0 ≤ QWK_denominator rs.
Proof.
  unfold QWK_denominator, var_H_population, var_M_population.
  repeat apply Qcplus_nonneg_nonneg; try apply sq_nonneg;
    (apply Qcdiv_nonneg; [|apply Qc_of_nat_nonneg]);
    apply sumQc_map_nonneg; intros r; apply sq_nonneg.
Qed.

(** The denominator of QWK exceeds twice the covariance by [MSE(H|M)]. *)
Lemma QWK_denominator_decomposition (rs : ResponseSet) :
  (1 <= N rs)%nat ->
  QWK_denominator rs = 2 * cov_MH_population rs + mse_observed rs.
Proof.
  intros HN.
  assert (Hne : Qc_of_nat (N rs) <> 0) by (by apply Qc_of_nat_neq_0).
  unfold QWK_denominator, var_H_population, var_M_population,
    cov_MH_population, mse_observed.
  rewrite !sumQc_sq_shift, sumQc_prod_shift, sumQc_sq_diff.
  unfold M_bar, H_bar, sq. fold (N rs).
  rewrite (sumQc_ext (fun r => human_score_1 r * system_score r)
             (fun r => system_score r * human_score_1 r))
    by (apply Forall_forall; intros r _; ring).
  set (n := Qc_of_nat (N rs)) in *.
  set (SM := sumQc (map system_score rs)).
  set (SH := sumQc (map human_score_1 rs)).
  set (SMM := sumQc (map (fun r => system_score r * system_score r) rs)).
  set (SHH := sumQc (map (fun r => human_score_1 r * human_score_1 r) rs)).
  set (SMH := sumQc (map (fun r => system_score r * human_score_1 r) rs)).
  by field.
Qed.

(** On a non-empty response set with a non-zero QWK denominator,
    [QWK = 1 - MSE(H|M) / (Var(H) + Var(M) + (M_bar - H_bar)^2)]; hence QWK
    is at most [1], and is [1] exactly when the system score equals the
    human score on every response. *)
Theorem QWK_as_mse_ratio (rs : ResponseSet) :
  (1 <= N rs)%nat -> QWK_denominator rs <> 0 ->
  QWK rs = 1 - mse_observed rs / QWK_denominator rs
  /\ QWK rs ≤ 1
  /\ (QWK rs = 1 <-> predicts_H rs).
Proof.
  intros HN Hden.
  assert (Hpos : 0 < QWK_denominator rs).
  { destruct (Qcle_lt_or_eq _ _ (QWK_denominator_nonneg rs)) as [Hlt|Heq];
      [done|by symmetry in Heq]. }
  assert (E : QWK rs = 1 - mse_observed rs / QWK_denominator rs).
  { unfold QWK.
    replace (2 * cov_MH_population rs)
      with (QWK_denominator rs - mse_observed rs)
      by (rewrite (QWK_denominator_decomposition rs HN); ring).
    by field. }
  destruct (one_minus_ratio (mse_observed rs) (QWK_denominator rs)
              (mse_observed_nonneg rs) Hpos) as [Hle Hiff].
  rewrite E. split; [done|]. split; [done|].
  rewrite Hiff. by apply mse_observed_zero_iff.
Qed.

Lemma QWK_as_mse_ratio_witness :
  QWK scenario4 = 1 - mse_observed scenario4 / QWK_denominator scenario4
  /\ QWK scenario4 ≤ 1
  /\ (QWK scenario4 = 1 <-> predicts_H scenario4).
Proof.
  apply (QWK_as_mse_ratio scenario4); [vm_compute; lia | qc_neq].
Defined.

(** QWK treats the two scores alike: exchanging system and human scores
    leaves it unchanged. *)
Theorem QWK_symmetric (rs : ResponseSet) : QWK (swap_scores rs) = QWK rs.
Proof.
  assert (HN : N (swap_scores rs) = N rs) by apply length_map.
  assert (HM : M_bar (swap_scores rs) = H_bar rs).
  { unfold M_bar, H_bar. rewrite HN. unfold swap_scores. by rewrite map_map. }
  assert (HH : H_bar (swap_scores rs) = M_bar rs).
  { unfold M_bar, H_bar. rewrite HN. unfold swap_scores. by rewrite map_map. }
  unfold QWK, QWK_denominator, var_H_population, var_M_population,
    cov_MH_population.
  rewrite HN, HM, HH. unfold swap_scores. rewrite !map_map. simpl.
  rewrite (sumQc_ext
             (fun r => (human_score_1 r - H_bar rs) * (system_score r - M_bar rs))
             (fun r => (system_score r - M_bar rs) * (human_score_1 r - H_bar rs)))
    by (apply Forall_forall; intros r _; ring).
  apply (f_equal (Qcdiv _)). unfold sq. ring.
Qed.

(** ** The centre of the true-score variance *)

Lemma weighted_sq_dev_moments (h : Qc) (rs : ResponseSet) :
  weighted_sq_dev h rs
  = sumQc (map (fun r => c r * (H_hat r * H_hat r)) rs)
    - 2 * h * sumQc (map (fun r => c r * H_hat r) rs)
    + h * h * sumQc (map c rs).
Proof.
  unfold weighted_sq_dev, sq.
  induction rs as [|r rs IH]; simpl; [ring|]. rewrite IH. ring.
Qed.

(** The weighted squared deviations in the numerator of the true-score
    variance are smallest around the mean of [H_hat] weighted by the number
    of scores, [m = Σ c_i H_hat_i / Σ c_i]: around any other centre [h] they
    grow by [(Σ c_i) * (h - m)^2]. *)
Theorem weighted_sq_dev_centre (h : Qc) (rs : ResponseSet) :
  (1 <= N rs)%nat ->
  let m := sumQc (map (fun r => c r * H_hat r) rs) / sumQc (map c rs) in
  weighted_sq_dev h rs
  = weighted_sq_dev m rs + sumQc (map c rs) * sq (h - m)
  /\ weighted_sq_dev m rs ≤ weighted_sq_dev h rs.
Proof.
  intros HN m.
  assert (Hc : 0 < sumQc (map c rs)).
  { fold (sum_c rs). rewrite sum_c_counts, total_scores_counts.
    apply Qc_of_nat_pos. pose proof (N1_plus_N2 rs). lia. }
  assert (Hne : sumQc (map c rs) <> 0).
  { intros E. rewrite E in Hc. by apply (irreflexivity Qclt 0). }
  assert (E : weighted_sq_dev h rs
              = weighted_sq_dev m rs + sumQc (map c rs) * sq (h - m)).
  { rewrite !weighted_sq_dev_moments. unfold m, sq.
    set (W := sumQc (map (fun r => c r * H_hat r) rs)).
    set (S := sumQc (map c rs)) in *.
    set (Q := sumQc (map (fun r => c r * (H_hat r * H_hat r)) rs)).
    by field. }
  split; [done|]. rewrite E.
  rewrite <- (Qcplus_0_r (weighted_sq_dev m rs)) at 1.
  apply Qcplus_le_mono_l, Qcmult_nonneg_nonneg;
    [by apply Qclt_le_weak|apply sq_nonneg].
Qed.

Lemma weighted_sq_dev_centre_witness :
  let m := sumQc (map (fun r => c r * H_hat r) mixed5) / sumQc (map c mixed5) in
  weighted_sq_dev (sc 7) mixed5
  = weighted_sq_dev m mixed5 + sumQc (map c mixed5) * sq (sc 7 - m)
  /\ weighted_sq_dev m mixed5 ≤ weighted_sq_dev (sc 7) mixed5.
Proof. apply (weighted_sq_dev_centre (sc 7) mixed5). vm_compute; lia. Defined.

(** * Further properties of the report cell *)

Lemma nb_bind_raise {A B} (m : Nb A) (f : A -> Nb B) (k k' : Kernel) (e : exn) :
  m k = (inl e, k') -> (m ≫= f) k = (inl e, k').
Proof. intros Hm. unfold mbind, nb_mbind, nb_bind. by rewrite Hm. Qed.

(** A table whose columns are not all there raises before anything is
    allocated or shown. *)
Lemma show_table_no_columns
    (to_html : DataFrame -> string) (out_dfs : gmap string ref)
    (columns : list string) (k : Kernel) (l : ref) (df : DataFrame) :
  out_dfs !! "true_score_evaluations"%string = Some l ->
  objects k !! l = Some df ->
  select_columns columns df = None ->
  show_table to_html out_dfs columns k = (inl (KeyError "columns"), k).
Proof.
  intros Hkey Hl Hsel. unfold show_table, dict_getitem. rewrite Hkey.
  rewrite (nb_bind_run _ _ k k l) by done.
  apply nb_bind_raise. unfold getitem.
  rewrite (nb_bind_run _ _ k k df) by (by apply deref_run).
  by rewrite Hsel.
Qed.

(** On a non-empty evaluation dataframe the cell shows the first heading,
    sets the display width and goes on to the two tables. *)
Lemma cell_nonempty
    (no_info_str : string) (to_html : DataFrame -> string)
    (out_dfs : gmap string ref) (k : Kernel) (l : ref) (df : DataFrame) :
  out_dfs !! "true_score_evaluations"%string = Some l ->
  objects k !! l = Some df ->
  df_empty df = false ->
  true_score_evaluation_cell no_info_str to_html out_dfs k
  = (show_table to_html out_dfs variance_columns;;
     display (Markdown (join_lines prmse_markdown));;
     set_display_width 10;;
     show_table to_html out_dfs prmse_columns)
      (mkKernel (objects k) 10
         (displayed k ++ [Markdown (join_lines variance_markdown)])).
Proof.
  intros Hkey Hl Hempty.
  unfold true_score_evaluation_cell, dict_getitem. rewrite Hkey.
  rewrite (nb_bind_run _ _ k k l) by done.
  rewrite (nb_bind_run _ _ k k df) by (by apply deref_run).
  rewrite Hempty. cbn [negb].
  set (k1 := mkKernel (objects k) (pd_display_width k)
               (displayed k ++ [Markdown (join_lines variance_markdown)])).
  rewrite (nb_bind_run _ _ k k1 tt) by done.
  by rewrite (nb_bind_run _ _ k1 (mkKernel (objects k) 10 (displayed k1)) tt).
Qed.

(** Without the key ['true_score_evaluations'] in [out_dfs] the cell raises
    [KeyError] at once: nothing is shown and the kernel is as before. *)
Theorem cell_missing_key
    (no_info_str : string) (to_html : DataFrame -> string)
    (out_dfs : gmap string ref) (k : Kernel) :
  out_dfs !! "true_score_evaluations"%string = None ->
  true_score_evaluation_cell no_info_str to_html out_dfs k
  = (inl (KeyError "true_score_evaluations"), k).
Proof.
  intros Hkey. unfold true_score_evaluation_cell, dict_getitem.
  rewrite Hkey. by apply nb_bind_raise.
Qed.

Lemma cell_missing_key_witness :
  true_score_evaluation_cell "No information" (fun _ => "table") ∅ kernel0
  = (inl (KeyError "true_score_evaluations"), kernel0).
Proof.
  apply (cell_missing_key "No information" (fun _ => "table") ∅ kernel0).
  reflexivity.
Defined.

(** On an empty evaluation dataframe the cell shows the no-information text
    and nothing else: no table, no new object, and the display width is left
    as it was. *)
Theorem cell_empty_dataframe
    (no_info_str : string) (to_html : DataFrame -> string)
    (out_dfs : gmap string ref) (k : Kernel) (l : ref) (df : DataFrame) :
  out_dfs !! "true_score_evaluations"%string = Some l ->
  objects k !! l = Some df ->
  df_empty df = true ->
  true_score_evaluation_cell no_info_str to_html out_dfs k
  = (inr tt,
     mkKernel (objects k) (pd_display_width k)
       (displayed k ++ [Markdown no_info_str])).
Proof.
  intros Hkey Hl Hempty.
  unfold true_score_evaluation_cell, dict_getitem. rewrite Hkey.
  rewrite (nb_bind_run _ _ k k l) by done.
  rewrite (nb_bind_run _ _ k k df) by (by apply deref_run).
  by rewrite Hempty.
Qed.

Lemma cell_empty_dataframe_witness :
  let k := mkKernel {[ 1%positive := mkDataFrame [] (df_columns evals_df) ]} 80 [] in
  true_score_evaluation_cell "No information" (fun _ => "table") out_dfs0 k
  = (inr tt,
     mkKernel (objects k) (pd_display_width k)
       (displayed k ++ [Markdown "No information"])).
Proof.
  apply (cell_empty_dataframe "No information" (fun _ => "table") out_dfs0
           (mkKernel {[ 1%positive := mkDataFrame [] (df_columns evals_df) ]} 80 [])
           1%positive (mkDataFrame [] (df_columns evals_df))); reflexivity.
Defined.

(** When a column of the variance table is missing from a non-empty
    evaluation dataframe, the cell raises [KeyError] after the first heading
    has been shown and the display width set to [10]: no table is shown and
    no object is created. *)
Theorem cell_missing_variance_column
    (no_info_str : string) (to_html : DataFrame -> string)
    (out_dfs : gmap string ref) (k : Kernel) (l : ref) (df : DataFrame) :
  out_dfs !! "true_score_evaluations"%string = Some l ->
  objects k !! l = Some df ->
  df_empty df = false ->
  select_columns variance_columns df = None ->
  true_score_evaluation_cell no_info_str to_html out_dfs k
  = (inl (KeyError "columns"),
     mkKernel (objects k) 10
       (displayed k ++ [Markdown (join_lines variance_markdown)])).
Proof.
  intros Hkey Hl Hempty Hsel.
  rewrite (cell_nonempty _ _ _ _ l df) by done.
  apply nb_bind_raise. by apply (show_table_no_columns _ _ _ _ l df).
Qed.

(** When the variance table can be built but a column of the PRMSE table is
    missing, the cell shows the first heading, the variance table and the
    second heading and then raises [KeyError]; the evaluation dataframe is
    still as it was. *)
Theorem cell_missing_prmse_column
    (no_info_str : string) (to_html : DataFrame -> string)
    (out_dfs : gmap string ref) (k : Kernel) (l : ref) (df : DataFrame)
    (vcols : list (string * list cell)) :
  out_dfs !! "true_score_evaluations"%string = Some l ->
  objects k !! l = Some df ->
  df_empty df = false ->
  select_columns variance_columns df = Some vcols ->
  select_columns prmse_columns df = None ->
  let run := true_score_evaluation_cell no_info_str to_html out_dfs k in
  run.1 = inl (KeyError "columns")
  /\ displayed run.2
     = displayed k
       ++ [Markdown (join_lines variance_markdown);
           HTML (span_open
                 ++ to_html (replace_nan (mkDataFrame (df_index df) vcols))
                 ++ span_close);
           Markdown (join_lines prmse_markdown)]
  /\ pd_display_width run.2 = 10%Z
  /\ objects run.2 !! l = Some df.
Proof.
  intros Hkey Hl Hempty Hv Hp run. unfold run.
  rewrite (cell_nonempty _ _ _ _ l df) by done.
  set (k2 := mkKernel (objects k) 10
               (displayed k ++ [Markdown (join_lines variance_markdown)])).
  pose proof (show_table_run to_html out_dfs variance_columns k2 l df vcols
                Hkey Hl Hv) as Hrun1.
  cbv zeta in Hrun1. rewrite (nb_bind_run _ _ _ _ _ Hrun1).
  match type of Hrun1 with _ = (_, ?k') => set (k3 := k') in * end.
  assert (Hl3 : objects k3 !! l = Some df) by (by apply lookup_after_table).
  set (k4 := mkKernel (objects k3) (pd_display_width k3)
               (displayed k3 ++ [Markdown (join_lines prmse_markdown)])).
  rewrite (nb_bind_run _ _ k3 k4 tt) by done.
  set (k5 := mkKernel (objects k3) 10 (displayed k4)).
  rewrite (nb_bind_run _ _ k4 k5 tt) by done.
  rewrite (show_table_no_columns to_html out_dfs prmse_columns k5 l df) by done.
  simpl. split; [done|]. split; [by rewrite <- !app_assoc|]. by split.
Qed.

Lemma cell_missing_variance_column_witness :
  let k := place 1%positive (drop_column "true_var" evals_df) in
  true_score_evaluation_cell "No information" (fun _ => "table") out_dfs0 k
  = (inl (KeyError "columns"),
     mkKernel (objects k) 10
       (displayed k ++ [Markdown (join_lines variance_markdown)])).
Proof.
  apply (cell_missing_variance_column "No information" (fun _ => "table")
           out_dfs0 (place 1%positive (drop_column "true_var" evals_df))
           1%positive (drop_column "true_var" evals_df)); reflexivity.
Defined.

Lemma cell_missing_prmse_column_witness :
  let df := drop_column "mse_true" evals_df in
  let run := true_score_evaluation_cell "No information" (fun _ => "table")
               out_dfs0 (place 1%positive df) in
  run.1 = inl (KeyError "columns")
  /\ displayed run.2
     = [Markdown (join_lines variance_markdown);
        HTML (span_open ++ "table" ++ span_close);
        Markdown (join_lines prmse_markdown)]
  /\ pd_display_width run.2 = 10%Z
  /\ objects run.2 !! 1%positive = Some df.
Proof.
  apply (cell_missing_prmse_column "No information" (fun _ => "table")
           out_dfs0 (place 1%positive (drop_column "mse_true" evals_df))
           1%positive (drop_column "mse_true" evals_df)
           (firstn 7 (df_columns evals_df))); reflexivity.
Defined.

(** After a first table that could be built, what is left of the cell is
    the second table, run from a kernel that still holds the evaluation
    dataframe. *)
Lemma cell_after_first_table
    (no_info_str : string) (to_html : DataFrame -> string)
    (out_dfs : gmap string ref) (k : Kernel) (l : ref) (df : DataFrame)
    (vcols : list (string * list cell)) :
  out_dfs !! "true_score_evaluations"%string = Some l ->
  objects k !! l = Some df ->
  df_empty df = false ->
  select_columns variance_columns df = Some vcols ->
  exists k5,
    true_score_evaluation_cell no_info_str to_html out_dfs k
    = show_table to_html out_dfs prmse_columns k5
    /\ objects k5 !! l = Some df.
Proof.
  intros Hkey Hl Hempty Hv.
  rewrite (cell_nonempty _ _ _ _ l df) by done.
  set (k2 := mkKernel (objects k) 10
               (displayed k ++ [Markdown (join_lines variance_markdown)])).
  pose proof (show_table_run to_html out_dfs variance_columns k2 l df vcols
                Hkey Hl Hv) as Hrun1.
  cbv zeta in Hrun1. rewrite (nb_bind_run _ _ _ _ _ Hrun1).
  match type of Hrun1 with _ = (_, ?k') => set (k3 := k') in * end.
  assert (Hl3 : objects k3 !! l = Some df) by (by apply lookup_after_table).
  set (k4 := mkKernel (objects k3) (pd_display_width k3)
               (displayed k3 ++ [Markdown (join_lines prmse_markdown)])).
  rewrite (nb_bind_run _ _ k3 k4 tt) by done.
  set (k5 := mkKernel (objects k3) 10 (displayed k4)).
  rewrite (nb_bind_run _ _ k4 k5 tt) by done.
  by exists k5.
Qed.

(** The cell completes without an exception exactly when the evaluation
    dataframe is empty or has every column of both tables. *)
Theorem cell_completes_iff
    (no_info_str : string) (to_html : DataFrame -> string)
    (out_dfs : gmap string ref) (k : Kernel) (l : ref) (df : DataFrame) :
  out_dfs !! "true_score_evaluations"%string = Some l ->
  objects k !! l = Some df ->
  (true_score_evaluation_cell no_info_str to_html out_dfs k).1 = inr tt
  <-> df_empty df = true
      \/ (is_Some (select_columns variance_columns df)
          /\ is_Some (select_columns prmse_columns df)).
Proof.
  intros Hkey Hl.
  destruct (df_empty df) eqn:Hempty.
  { split; [by left|]. intros _.
    unfold true_score_evaluation_cell, dict_getitem. rewrite Hkey.
    rewrite (nb_bind_run _ _ k k l) by done.
    rewrite (nb_bind_run _ _ k k df) by (by apply deref_run).
    by rewrite Hempty. }
  destruct (select_columns variance_columns df) as [vcols|] eqn:Hv.
  - destruct (select_columns prmse_columns df) as [pcols|] eqn:Hp.
    + split; [by right|]. intros _.
      by apply (cell_run no_info_str to_html out_dfs k l df vcols pcols).
    + destruct (cell_after_first_table no_info_str to_html out_dfs k l df vcols)
        as (k5 & -> & Hl5); try done.
      rewrite (show_table_no_columns to_html out_dfs prmse_columns k5 l df)
        by done.
      split; [done|]. intros [?|[_ [? ?]]]; done.
  - rewrite (cell_nonempty _ _ _ _ l df) by done.
    erewrite nb_bind_raise; [|by apply (show_table_no_columns _ _ _ _ l df)].
    split; [done|]. intros [?|[[? ?] _]]; done.
Qed.

Lemma cell_completes_iff_witness :
  (true_score_evaluation_cell "No information" (fun _ => "table")
     out_dfs0 kernel0).1 = inr tt
  <-> df_empty evals_df = true
      \/ (is_Some (select_columns variance_columns evals_df)
          /\ is_Some (select_columns prmse_columns evals_df)).
Proof.
  apply (cell_completes_iff "No information" (fun _ => "table")
           out_dfs0 kernel0 1%positive evals_df); reflexivity.
Defined.

(** Running the cell a second time shows the same two headings and two
    tables again: the first run left the evaluation dataframe, missing
    values included, as it found it. *)
Theorem cell_rerun
    (no_info_str : string) (to_html : DataFrame -> string)
    (out_dfs : gmap string ref) (k : Kernel) (l : ref) (df : DataFrame)
    (vcols pcols : list (string * list cell)) :
  out_dfs !! "true_score_evaluations"%string = Some l ->
  objects k !! l = Some df ->
  df_empty df = false ->
  select_columns variance_columns df = Some vcols ->
  select_columns prmse_columns df = Some pcols ->
  let cell := true_score_evaluation_cell no_info_str to_html out_dfs in
  let table cols :=
    HTML (span_open ++ to_html (replace_nan (mkDataFrame (df_index df) cols))
          ++ span_close) in
  let shown := [Markdown (join_lines variance_markdown); table vcols;
                Markdown (join_lines prmse_markdown); table pcols] in
  (cell (cell k).2).1 = inr tt
  /\ displayed (cell (cell k).2).2 = displayed k ++ shown ++ shown
  /\ objects (cell (cell k).2).2 !! l = Some df.
Proof.
  intros Hkey Hl Hempty Hv Hp cell table shown. subst cell table shown.
  destruct (cell_run no_info_str to_html out_dfs k l df vcols pcols)
    as (_ & Hshown1 & _ & Hl1); try done.
  cbv zeta in Hshown1.
  destruct (cell_run no_info_str to_html out_dfs
              (true_score_evaluation_cell no_info_str to_html out_dfs k).2
              l df vcols pcols)
    as (Hres2 & Hshown2 & _ & Hl2); try done.
  cbv zeta in Hshown2.
  split; [done|]. split; [|done].
  rewrite Hshown2, Hshown1. by rewrite <- app_assoc.
Qed.

Lemma cell_rerun_witness :
  let cell := true_score_evaluation_cell "No information" (fun _ => "table")
                out_dfs0 in
  let shown := [Markdown (join_lines variance_markdown);
                HTML (span_open ++ "table" ++ span_close);
                Markdown (join_lines prmse_markdown);
                HTML (span_open ++ "table" ++ span_close)] in
  (cell (cell kernel0).2).1 = inr tt
  /\ displayed (cell (cell kernel0).2).2 = displayed kernel0 ++ shown ++ shown
  /\ objects (cell (cell kernel0).2).2 !! 1%positive = Some evals_df.
Proof.
  apply (cell_rerun "No information" (fun _ => "table") out_dfs0 kernel0
           1%positive evals_df
           (firstn 7 (df_columns evals_df))
           (firstn 3 (df_columns evals_df) ++ skipn 7 (df_columns evals_df)));
    reflexivity.
Defined.

(** ** What the cell leaves behind *)

Lemma appends_refl (k : Kernel) : appends k k.
Proof. split; [exists []; by rewrite app_nil_r|by left]. Qed.

Lemma appends_trans (k1 k2 k3 : Kernel) :
  appends k1 k2 -> appends k2 k3 -> appends k1 k3.
Proof.
  intros [[s1 H1] W1] [[s2 H2] W2]. split.
  - exists (s1 ++ s2). by rewrite H2, H1, app_assoc.
  - destruct W2 as [W2|W2]; [rewrite W2; exact W1|by right].
Qed.

Lemma appending_bind {A B} (m : Nb A) (f : A -> Nb B) :
  appending m -> (forall a, appending (f a)) -> appending (m ≫= f).
Proof.
  intros Hm Hf k. specialize (Hm k).
  unfold mbind, nb_mbind, nb_bind.
  destruct (m k) as [[e|a] k']; simpl in *; [done|].
  eapply appends_trans; [exact Hm|apply Hf].
Qed.

Lemma appending_ret {A} (a : A) : appending (mret a).
Proof. intros k. apply appends_refl. Qed.

Lemma appending_raise {A} (e : exn) : appending (@nb_raise A e).
Proof. intros k. apply appends_refl. Qed.

Lemma appending_deref (l : ref) : appending (deref l).
Proof. intros k. unfold deref. destruct (objects k !! l); apply appends_refl. Qed.

Lemma appending_alloc (df : DataFrame) : appending (alloc df).
Proof. intros k. split; [exists []; simpl; by rewrite app_nil_r|by left]. Qed.

Lemma appending_assign (l : ref) (df : DataFrame) : appending (assign l df).
Proof. intros k. split; [exists []; simpl; by rewrite app_nil_r|by left]. Qed.

Lemma appending_display (o : output) : appending (display o).
Proof. intros k. split; [by exists [o]|by left]. Qed.

Lemma appending_set_display_width : appending (set_display_width 10).
Proof. intros k. split; [exists []; simpl; by rewrite app_nil_r|by right]. Qed.

Lemma appending_dict_getitem (d : gmap string ref) (key : string) :
  appending (dict_getitem d key).
Proof.
  unfold dict_getitem. destruct (d !! key);
    [apply appending_ret|apply appending_raise].
Qed.

Lemma appending_show_table
    (to_html : DataFrame -> string) (out_dfs : gmap string ref)
    (columns : list string) :
  appending (show_table to_html out_dfs columns).
Proof.
  unfold show_table, getitem, copy, replace_inplace.
  repeat first
    [ apply appending_dict_getitem | apply appending_deref
    | apply appending_alloc | apply appending_assign | apply appending_display
    | apply appending_raise
    | match goal with |- appending (match ?x with _ => _ end) => destruct x end
    | apply appending_bind; [|intros ?] ].
Qed.

(** Whatever the kernel and the dictionary, and whether it completes or
    raises, the cell keeps every output shown before it, in order, adding
    its own after them, and leaves the display width either untouched or at
    [10]. *)
Theorem cell_only_appends
    (no_info_str : string) (to_html : DataFrame -> string)
    (out_dfs : gmap string ref) (k : Kernel) :
  let k' := (true_score_evaluation_cell no_info_str to_html out_dfs k).2 in
  (exists shown, displayed k' = displayed k ++ shown)
  /\ (pd_display_width k' = pd_display_width k \/ pd_display_width k' = 10%Z).
Proof.
  assert (H : appending (true_score_evaluation_cell no_info_str to_html out_dfs)).
  { unfold true_score_evaluation_cell.
    apply appending_bind; [apply appending_dict_getitem|]. intros evals.
    apply appending_bind; [apply appending_deref|]. intros df.
    destruct (negb (df_empty df)); [|apply appending_display].
    repeat first
      [ apply appending_display | apply appending_set_display_width
      | apply appending_show_table
      | apply appending_bind; [|intros ?] ]. }
  exact (H k).
Qed.

(** ** Selecting columns and replacing missing values *)

Lemma replace_nan_cell_not_nan (v : cell) : replace_nan_cell v <> NaN.
Proof. by destruct v. Qed.

Lemma columns_labelled_spec (name : string) (df : DataFrame)
    (col : string * list cell) :
  In col (columns_labelled name df) <-> In col (df_columns df) /\ fst col = name.
Proof.
  unfold columns_labelled. rewrite filter_In. by rewrite String.eqb_eq.
Qed.

Lemma columns_labelled_nil (name : string) (df : DataFrame) :
  columns_labelled name df = [] <-> ~ In name (map fst (df_columns df)).
Proof.
  split.
  - intros Hnil Hin. apply in_map_iff in Hin as (col & Hfst & Hcol).
    assert (Hc : In col (columns_labelled name df))
      by (by apply columns_labelled_spec).
    by rewrite Hnil in Hc.
  - intros Hnot. destruct (columns_labelled name df) as [|col rest] eqn:E; [done|].
    exfalso. apply Hnot.
    assert (Hc : In col (columns_labelled name df)) by (rewrite E; by left).
    apply columns_labelled_spec in Hc as [Hc <-]. by apply in_map.
Qed.

(** [df[names]] raises [KeyError] exactly when some asked label is carried
    by no column. *)
Theorem select_columns_succeeds_iff (names : list string) (df : DataFrame) :
  is_Some (select_columns names df)
  <-> Forall (fun name => In name (map fst (df_columns df))) names.
Proof.
  induction names as [|name names IH]; simpl.
  - split; [by constructor|by eexists].
  - rewrite Forall_cons. rewrite <- IH.
    destruct (columns_labelled name df) as [|col rest] eqn:E.
    + apply columns_labelled_nil in E. split; [by intros [? ?]|by intros [? _]].
    + assert (Hin : In name (map fst (df_columns df))).
      { destruct (in_dec String.string_dec name (map fst (df_columns df)))
          as [Hin|Hnot]; [done|].
        apply columns_labelled_nil in Hnot. by rewrite Hnot in E. }
      destruct (select_columns names df); split; try done.
      by intros [_ ?].
Qed.

Lemma filter_label_unique (name : string) (cols : list (string * list cell)) :
  NoDup (map fst cols) ->
  List.filter (fun col => String.eqb (fst col) name) cols = []
  \/ exists col,
       List.filter (fun col => String.eqb (fst col) name) cols = [col]
       /\ fst col = name /\ In col cols.
Proof.
  induction cols as [|c cs IH]; simpl; [by left|].
  intros Hnd. apply NoDup_cons in Hnd as [Hfresh Hnd].
  rewrite list_elem_of_In in Hfresh.
  destruct (String.eqb (fst c) name) eqn:E.
  - apply String.eqb_eq in E. right. exists c.
    split; [|split; [done|by left]]. f_equal.
    destruct (List.filter _ cs) as [|c' rest] eqn:Hf; [done|].
    exfalso. apply Hfresh.
    assert (Hc' : In c' (List.filter (fun col => String.eqb (fst col) name) cs))
      by (rewrite Hf; by left).
    apply filter_In in Hc' as [Hc' Hname]. apply String.eqb_eq in Hname.
    rewrite E, <- Hname. by apply in_map.
  - destruct (IH Hnd) as [Hnil|(col & Hf & Hname & Hin)]; [by left|].
    right. exists col. split; [done|]. split; [done|by right].
Qed.

(** When the labels of the dataframe are all different, a selection that
    succeeds has exactly the asked labels, in the order asked, and each of
    its columns is a column of the dataframe. *)
Lemma select_columns_labels
    (names : list string) (df : DataFrame) (cols : list (string * list cell)) :
  NoDup (map fst (df_columns df)) ->
  select_columns names df = Some cols ->
  map fst cols = names /\ Forall (fun col => In col (df_columns df)) cols.
Proof.
  intros Hnd. revert cols.
  induction names as [|name names IH]; simpl; intros cols Hsel.
  - inversion Hsel; subst. by split; [|constructor].
  - unfold columns_labelled in Hsel.
    destruct (filter_label_unique name (df_columns df) Hnd)
      as [Hnil|(col & Hf & Hname & Hin)].
    + by rewrite Hnil in Hsel.
    + rewrite Hf in Hsel.
      destruct (select_columns names df) as [rest|]; [|done].
      inversion Hsel; subst. destruct (IH rest eq_refl) as [Hlabels Hall].
      simpl. split; [by rewrite Hlabels|by constructor].
Qed.

(** * Properties of the conda recipe *)

Local Open Scope string_scope.

Lemma prefix_char (ch d : Ascii.ascii) (s : string) :
  String.prefix (String ch EmptyString) (String d s) = bool_decide (ch = d).
Proof.
  simpl. destruct (Ascii.ascii_dec ch d) as [E|E].
  - rewrite bool_decide_eq_true_2 by done. by destruct s.
  - by rewrite bool_decide_eq_false_2.
Qed.

(** A replacement whose pattern does not occur changes nothing. *)
Lemma str_replace_from_absent (old new s : string) :
  occurs old s = false -> str_replace_from 0 old new s = s.
Proof.
  induction s as [|ch rest IH]; [done|].
  cbn [occurs str_replace_from]. intros Hocc.
  apply orb_false_iff in Hocc as [Hpre Hrest].
  rewrite Hpre. f_equal. by apply IH.
Qed.

Lemma str_replace_absent (old new s : string) :
  old <> EmptyString -> occurs old s = false -> str_replace old new s = s.
Proof.
  intros Hold Hocc. unfold str_replace. destruct old; [done|].
  by apply str_replace_from_absent.
Qed.

(** After [replace("==", " ")], an output starts with [=] only if the input
    did. *)
Lemma replace_eqeq_head (s : string) :
  String.prefix "=" s = false ->
  String.prefix "=" (str_replace_from 0 "==" " " s) = false.
Proof.
  destruct s as [|d rest]; [done|]. rewrite prefix_char. intros Hd.
  cbn [str_replace_from String.prefix]. destruct (Ascii.ascii_dec "="%char d) as [E|E].
  - by rewrite bool_decide_eq_true_2 in Hd.
  - rewrite prefix_char. by apply bool_decide_eq_false_2.
Qed.

Lemma replace_eqeq_no_pair (s : string) :
  occurs "==" (str_replace_from 0 "==" " " s) = false
  /\ occurs "==" (str_replace_from 1 "==" " " s) = false.
Proof.
  induction s as [|ch rest [IH0 IH1]]; [done|].
  split; [|exact IH0].
  cbn [str_replace_from].
  destruct (String.prefix "==" (String ch rest)) eqn:Hpre.
  - change (occurs "==" (String " "%char (str_replace_from 1 "==" " " rest)) = false).
    cbn [occurs]. rewrite IH1. by rewrite orb_false_r.
  - cbn [occurs]. rewrite IH0, orb_false_r.
    cbn [String.prefix] in *. destruct (Ascii.ascii_dec "="%char ch) as [E|E]; [|done].
    by apply replace_eqeq_head.
Qed.

(** No requirement line of the recipe contains [==]: the version pins of
    [install_requires] are all rewritten. *)
Theorem recipe_requirements_no_double_equals (install_requires : list string) :
  Forall (fun line => occurs "==" line = false)
         (recipe_requirements install_requires).
Proof.
  unfold recipe_requirements. constructor; [done|].
  apply Forall_map, Forall_forall. intros req _.
  unfold conda_requirement, str_replace at 1. apply replace_eqeq_no_pair.
Qed.

(** A requirement containing none of [<], [>] and [==], such as a bare
    package name, is written unchanged. *)
Theorem conda_requirement_unchanged (req : string) :
  occurs ">" req = false -> occurs "<" req = false ->
  occurs "==" req = false ->
  conda_requirement req = req.
Proof.
  intros Hgt Hlt Heq. unfold conda_requirement.
  rewrite (str_replace_absent ">" " >" req) by done.
  rewrite (str_replace_absent "<" " <" req) by done.
  by apply str_replace_absent.
Qed.

Lemma conda_requirement_unchanged_witness :
  conda_requirement "numpy" = "numpy".
Proof. apply (conda_requirement_unchanged "numpy"); reflexivity. Defined.

Lemma occurs_char_cons (ch d : Ascii.ascii) (s : string) :
  occurs (String ch EmptyString) (String d s)
  = bool_decide (ch = d) || occurs (String ch EmptyString) s.
Proof. cbn [occurs]. by rewrite prefix_char. Qed.

Lemma occurs_char_app (ch : Ascii.ascii) (a b : string) :
  occurs (String ch EmptyString) (a ++ b)
  = occurs (String ch EmptyString) a || occurs (String ch EmptyString) b.
Proof.
  induction a as [|d a IH].
  - by destruct b.
  - change (String d a ++ b) with (String d (a ++ b)).
    by rewrite !occurs_char_cons, IH, orb_assoc.
Qed.

(** A pattern cannot match where its first character does not occur. *)
Lemma str_replace_from_past (ch : Ascii.ascii) (old' new a b : string) :
  occurs (String ch EmptyString) a = false ->
  str_replace_from 0 (String ch old') new (a ++ b)
  = a ++ str_replace_from 0 (String ch old') new b.
Proof.
  induction a as [|d a IH]; [done|].
  rewrite occurs_char_cons. intros Hocc.
  apply orb_false_iff in Hocc as [Hd Ha].
  change (String d a ++ b) with (String d (a ++ b)).
  cbn [str_replace_from String.prefix].
  destruct (Ascii.ascii_dec ch d) as [E|E].
  - by rewrite bool_decide_eq_true_2 in Hd.
  - change (String d a ++ ?x) with (String d (a ++ x)). f_equal. by apply IH.
Qed.

Lemma occurs_eq_pair_absent (s : string) :
  occurs "=" s = false -> occurs "==" s = false.
Proof.
  induction s as [|d s IH]; [done|].
  rewrite occurs_char_cons. intros Hocc.
  apply orb_false_iff in Hocc as [Hd Hs].
  cbn [occurs String.prefix]. rewrite (IH Hs), orb_false_r.
  destruct (Ascii.ascii_dec "="%char d) as [E|E]; [|done].
  by rewrite bool_decide_eq_true_2 in Hd.
Qed.

(** A stretch of a requirement without [<], [>] and [=] is copied as it
    is, and the rest is rewritten on its own. *)
Lemma conda_requirement_past (name rest : string) :
  plain name ->
  conda_requirement (name ++ rest) = name ++ conda_requirement rest.
Proof.
  intros (Hgt & Hlt & Heq). unfold conda_requirement, str_replace.
  by rewrite !str_replace_from_past.
Qed.

Lemma conda_requirement_plain (s : string) : plain s -> conda_requirement s = s.
Proof.
  intros (Hgt & Hlt & Heq). unfold conda_requirement.
  rewrite (str_replace_absent ">" " >" s) by done.
  rewrite (str_replace_absent "<" " <" s) by done.
  apply str_replace_absent; [done|]. by apply occurs_eq_pair_absent.
Qed.

Lemma append_cons (ch : Ascii.ascii) (a b : string) :
  String ch a ++ b = String ch (a ++ b).
Proof. reflexivity. Qed.

Lemma append_nil (b : string) : EmptyString ++ b = b.
Proof. reflexivity. Qed.

Lemma prefix_empty (s : string) : String.prefix EmptyString s = true.
Proof. by destruct s. Qed.

Lemma prefix_absent (pat s : string) :
  occurs pat s = false -> String.prefix pat s = false.
Proof.
  destruct s; cbn [occurs]; intros Hocc;
    by apply orb_false_iff in Hocc as [Hpre _].
Qed.

(** Rewrites a requirement that starts with literal characters and goes on
    with a stretch free of [<], [>] and [=]. *)
Ltac conda_eval Hgt Hlt Heq :=
  unfold conda_requirement, str_replace;
  repeat (rewrite ?append_cons, ?append_nil;
          cbn [str_replace_from String.prefix String.length Nat.sub];
          simpl Ascii.ascii_dec; cbv iota;
          rewrite ?prefix_empty, ?(prefix_absent _ _ Hgt),
                  ?(prefix_absent _ _ Hlt), ?(prefix_absent _ _ Heq),
                  ?(str_replace_from_absent _ _ _ Hgt),
                  ?(str_replace_from_absent _ _ _ Hlt),
                  ?(str_replace_from_absent _ _ _ (occurs_eq_pair_absent _ Heq)));
  try reflexivity.

(** For a package name and a version without [<], [>] and [=]: a pin
    [name==version] is written [name version], and a bound is written with
    a space before its operator, [name >=version], [name <=version],
    [name >version], [name <version]. *)
Theorem conda_requirement_operators (name version : string) :
  plain name -> plain version ->
  conda_requirement (name ++ "==" ++ version) = name ++ " " ++ version
  /\ conda_requirement (name ++ ">=" ++ version) = name ++ " >=" ++ version
  /\ conda_requirement (name ++ "<=" ++ version) = name ++ " <=" ++ version
  /\ conda_requirement (name ++ ">" ++ version) = name ++ " >" ++ version
  /\ conda_requirement (name ++ "<" ++ version) = name ++ " <" ++ version.
Proof.
  intros Hname (Hgt & Hlt & Heq).
  rewrite !(conda_requirement_past name) by done.
  repeat split; f_equal; conda_eval Hgt Hlt Heq.
Qed.

Lemma conda_requirement_operators_witness :
  conda_requirement ("pandas" ++ "==" ++ "0.23.4") = "pandas" ++ " " ++ "0.23.4"
  /\ conda_requirement ("pandas" ++ ">=" ++ "0.23.4") = "pandas" ++ " >=" ++ "0.23.4"
  /\ conda_requirement ("pandas" ++ "<=" ++ "0.23.4") = "pandas" ++ " <=" ++ "0.23.4"
  /\ conda_requirement ("pandas" ++ ">" ++ "0.23.4") = "pandas" ++ " >" ++ "0.23.4"
  /\ conda_requirement ("pandas" ++ "<" ++ "0.23.4") = "pandas" ++ " <" ++ "0.23.4".
Proof.
  apply (conda_requirement_operators "pandas" "0.23.4");
    repeat split; reflexivity.
Defined.

(** ** The tables of a complete run *)

Lemma replace_nan_no_nan (df : DataFrame) : no_nan (replace_nan df).
Proof.
  unfold no_nan, replace_nan. simpl.
  apply Forall_map, Forall_forall. intros col _. simpl.
  apply Forall_map, Forall_forall. intros v _. apply replace_nan_cell_not_nan.
Qed.

Lemma replace_nan_labels (df : DataFrame) :
  map fst (df_columns (replace_nan df)) = map fst (df_columns df).
Proof. unfold replace_nan. simpl. rewrite map_map. by apply map_ext. Qed.

(** On a non-empty evaluation dataframe with distinct column labels that
    has the columns of both lists, the cell shows, after each heading, the
    rendering of a table with the rows of the dataframe, exactly the columns
    of [variance_columns] (then of [prmse_columns]) in the listed order, and
    no missing value. *)
Theorem cell_shows_listed_columns
    (no_info_str : string) (to_html : DataFrame -> string)
    (out_dfs : gmap string ref) (k : Kernel) (l : ref) (df : DataFrame)
    (vcols pcols : list (string * list cell)) :
  out_dfs !! "true_score_evaluations" = Some l ->
  objects k !! l = Some df ->
  df_empty df = false ->
  NoDup (map fst (df_columns df)) ->
  select_columns variance_columns df = Some vcols ->
  select_columns prmse_columns df = Some pcols ->
  let variance_table := replace_nan (mkDataFrame (df_index df) vcols) in
  let prmse_table := replace_nan (mkDataFrame (df_index df) pcols) in
  displayed (true_score_evaluation_cell no_info_str to_html out_dfs k).2
  = (displayed k
     ++ [Markdown (join_lines variance_markdown);
         HTML (span_open ++ to_html variance_table ++ span_close);
         Markdown (join_lines prmse_markdown);
         HTML (span_open ++ to_html prmse_table ++ span_close)])%list
  /\ map fst (df_columns variance_table) = variance_columns
  /\ map fst (df_columns prmse_table) = prmse_columns
  /\ df_index variance_table = df_index df
  /\ df_index prmse_table = df_index df
  /\ no_nan variance_table /\ no_nan prmse_table.
Proof.
  intros Hkey Hl Hempty Hnd Hv Hp variance_table prmse_table.
  destruct (cell_run no_info_str to_html out_dfs k l df vcols pcols)
    as (_ & Hshown & _); try done.
  destruct (select_columns_labels variance_columns df vcols Hnd Hv) as [Hlv _].
  destruct (select_columns_labels prmse_columns df pcols Hnd Hp) as [Hlp _].
  split; [exact Hshown|].
  unfold variance_table, prmse_table. rewrite !replace_nan_labels. simpl.
  repeat split; try done; apply replace_nan_no_nan.
Qed.

Lemma cell_shows_listed_columns_witness :
  let variance_table :=
    replace_nan (mkDataFrame (df_index evals_df) (firstn 7 (df_columns evals_df))) in
  let prmse_table :=
    replace_nan (mkDataFrame (df_index evals_df)
                   (firstn 3 (df_columns evals_df) ++ skipn 7 (df_columns evals_df))%list) in
  displayed (true_score_evaluation_cell "No information" (fun _ => "table")
               out_dfs0 kernel0).2
  = (displayed kernel0
     ++ [Markdown (join_lines variance_markdown);
         HTML (span_open ++ "table" ++ span_close);
         Markdown (join_lines prmse_markdown);
         HTML (span_open ++ "table" ++ span_close)])%list
  /\ map fst (df_columns variance_table) = variance_columns
  /\ map fst (df_columns prmse_table) = prmse_columns
  /\ df_index variance_table = df_index evals_df
  /\ df_index prmse_table = df_index evals_df
  /\ no_nan variance_table /\ no_nan prmse_table.
Proof.
  apply (cell_shows_listed_columns "No information" (fun _ => "table")
           out_dfs0 kernel0 1%positive evals_df
           (firstn 7 (df_columns evals_df))
           (firstn 3 (df_columns evals_df) ++ skipn 7 (df_columns evals_df))%list);
    try reflexivity.
  apply (bool_decide_unpack _). vm_compute. exact I.
Defined.
